(** * A contact-book assistant: shallow embedding of [main.py]

    The development follows the source top-down: Python's [str] built-ins
    that the program calls, the validated fields ([Field], [Name], [Phone],
    [Birthday]), [Record], [AddressBook] and the command interpreter
    [Assistant]. The properties come after all definitions.

    Conventions.
    - A Python [str] is a [string] whose characters are the code points
      U+0000..U+00FF; the character classes below ([isdigit], [isspace],
      [lower], the class [\d] of regular expressions) are CPython's on
      that range.
    - Exceptions do not roll the state back, so every method is a function
      from the state before the call to an [outcome] together with the
      state after it.
    - [Record] objects are shared between [AddressBook.data] and
      [AddressBook._values]; they live in a heap and both views hold
      locations. A [Phone] object belongs to the phone list of one record
      and is kept there by value.
    - [Record.days_to_birthday] and the iterator protocol of
      [AddressBook] are called by no command; they are modelled on their
      own, with the current date as an argument. *)

From Stdlib Require Import ZArith Ascii String List Lia DecimalString.
From stdpp Require Import base option list gmap strings.

Local Open Scope string_scope.

(** ** Python built-ins on [str] *)

Module Py.

Definition ord (c : ascii) : nat := nat_of_ascii c.

Definition between (lo hi n : nat) : bool := (lo <=? n)%nat && (n <=? hi)%nat.

(** [str.isdigit] on one character: Numeric_Type Digit or Decimal, which
    below U+0100 is '0'..'9' and the superscripts U+00B2, U+00B3, U+00B9. *)
Definition chr_isdigit (c : ascii) : bool :=
  let n := ord c in
  between 48 57 n || (n =? 178)%nat || (n =? 179)%nat || (n =? 185)%nat.

(** The regular-expression class [\d] (category Nd): '0'..'9' below U+0100. *)
Definition chr_isdecimal (c : ascii) : bool := between 48 57 (ord c).

(** [str.isspace] on one character, as used by [str.split()]. *)
Definition chr_isspace (c : ascii) : bool :=
  let n := ord c in
  between 9 13 n || between 28 32 n || (n =? 133)%nat || (n =? 160)%nat.

(** [str.lower] on one character: 'A'..'Z' and the upper-case letters
    U+00C0..U+00DE except the multiplication sign U+00D7. *)
Definition chr_lower (c : ascii) : ascii :=
  let n := ord c in
  if between 65 90 n || (between 192 222 n && negb (n =? 215)%nat)
  then ascii_of_nat (n + 32) else c.

Fixpoint all_chars (p : ascii -> bool) (s : string) : bool :=
  match s with
  | EmptyString => true
  | String c s' => p c && all_chars p s'
  end.

Fixpoint any_char (p : ascii -> bool) (s : string) : bool :=
  match s with
  | EmptyString => false
  | String c s' => p c || any_char p s'
  end.

(** [len(s)] *)
Definition len (s : string) : nat := String.length s.

(** [s.isdigit()]: false on the empty string. *)
Definition isdigit (s : string) : bool :=
  match s with
  | EmptyString => false
  | _ => all_chars chr_isdigit s
  end.

(** [s.lower()] *)
Fixpoint lower (s : string) : string :=
  match s with
  | EmptyString => EmptyString
  | String c s' => String (chr_lower c) (lower s')
  end.

(** [s.startswith(p)] *)
Definition startswith (s p : string) : bool := String.prefix p s.

(** [c in s] for a one-character string [c] *)
Definition contains (c : ascii) (s : string) : bool := any_char (Ascii.eqb c) s.

(** [s.split(sep, maxsplit)] for a one-character separator: at most
    [maxsplit] cuts, from the left; empty pieces are kept. *)
Fixpoint split_sep (sep : ascii) (maxsplit : nat) (s : string) : list string :=
  match s with
  | EmptyString => [EmptyString]
  | String c s' =>
      match maxsplit with
      | O => [s]
      | S k =>
          if Ascii.eqb c sep then EmptyString :: split_sep sep k s'
          else match split_sep sep maxsplit s' with
               | w :: ws => String c w :: ws
               | [] => [String c EmptyString]
               end
      end
  end.

(** [s.split()]: the maximal runs of non-whitespace characters. *)
Fixpoint split_ws_aux (cur : option string) (s : string) : list string :=
  match s with
  | EmptyString => match cur with Some w => [w] | None => [] end
  | String c s' =>
      if chr_isspace c
      then match cur with
           | Some w => w :: split_ws_aux None s'
           | None => split_ws_aux None s'
           end
      else match cur with
           | Some w => split_ws_aux (Some (w +:+ String c EmptyString)) s'
           | None => split_ws_aux (Some (String c EmptyString)) s'
           end
  end.

Definition split_ws (s : string) : list string := split_ws_aux None s.

(** [sep.join(l)] *)
Definition join (sep : string) (l : list string) : string := String.concat sep l.

(** The characters that [int] skips on both sides of a literal: Unicode
    white space from U+0080 on, and below it the white space of C. *)
Definition chr_isspace_int (c : ascii) : bool :=
  let n := ord c in
  between 9 13 n || (n =? 32)%nat || (n =? 133)%nat || (n =? 160)%nat.

Fixpoint lstrip (p : ascii -> bool) (s : string) : string :=
  match s with
  | String c s' => if p c then lstrip p s' else s
  | EmptyString => EmptyString
  end.

Fixpoint rstrip (p : ascii -> bool) (s : string) : string :=
  match s with
  | EmptyString => EmptyString
  | String c s' =>
      match rstrip p s' with
      | EmptyString => if p c then EmptyString else String c EmptyString
      | r => String c r
      end
  end.

Definition digit_val (c : ascii) : Z := Z.of_nat (ord c) - 48.

(** [sys.int_info.default_max_str_digits] *)
Definition max_str_digits : nat := 4300.

(** The digits of a decimal literal, most significant first; a single
    underscore is allowed between two digits. [prev] tells whether the
    previous character was a digit, [count] is the number of digits read. *)
Fixpoint int_digits (prev : bool) (count : nat) (acc : Z) (s : string) : option Z :=
  match s with
  | EmptyString =>
      if prev && (count <=? max_str_digits)%nat then Some acc else None
  | String c s' =>
      if chr_isdecimal c then int_digits true (S count) (10 * acc + digit_val c) s'
      else if Ascii.eqb c "_" then
             if prev then int_digits false count acc s' else None
           else None
  end.

(** [int(s)] in base 10: surrounding white space, an optional sign, digits,
    at most [max_str_digits] of them. [None] stands for [ValueError]. *)
Definition int (s : string) : option Z :=
  match rstrip chr_isspace_int (lstrip chr_isspace_int s) with
  | String "-" d => Z.opp <$> int_digits false 0 0 d
  | String "+" d => int_digits false 0 0 d
  | d => int_digits false 0 0 d
  end.

(** [str(n)] for a natural number. *)
Definition str_of_nat (n : nat) : string := NilEmpty.string_of_uint (Nat.to_uint n).

(** The line feed, [chr(10)]. *)
Definition nl : string := String (ascii_of_nat 10) EmptyString.

(** A sequence slice [l[start:stop]]: negative indices count from the end,
    both bounds are clipped to the sequence. *)
Definition slice_index (n i : Z) : Z :=
  if (i <? 0)%Z then Z.max (i + n) 0 else Z.min i n.

Definition slice {A} (l : list A) (start stop : Z) : list A :=
  let n := Z.of_nat (length l) in
  let lo := slice_index n start in
  let hi := slice_index n stop in
  take (Z.to_nat (hi - lo)) (drop (Z.to_nat lo) l).

(** *** [datetime.strptime(s, '%Y-%m-%d')]

    CPython turns the format into the regular expression
    [(?P<Y>\d\d\d\d)-(?P<m>1[0-2]|0[1-9]|[1-9])-(?P<d>3[0-1]|[1-2]\d|0[1-9]|[1-9]| [1-9])],
    matches it at the start of the string, rejects the string when
    anything is left after the match, and builds a [date] from the three
    groups, which rejects year 0 and a day the month does not have. Each
    group below lists the ways its alternatives match, in the order the
    regular expression tries them, with the rest of the string. *)

Definition cls (lo hi c : ascii) : bool := between (ord lo) (ord hi) (ord c).

Definition re_Y (s : string) : list (Z * string) :=
  match s with
  | String a (String b (String c (String d r))) =>
      if chr_isdecimal a && chr_isdecimal b && chr_isdecimal c && chr_isdecimal d
      then [(((digit_val a * 10 + digit_val b) * 10 + digit_val c) * 10 + digit_val d, r)%Z]
      else []
  | _ => []
  end.

Definition re_two (p1 p2 : ascii -> bool) (s : string) : list (Z * string) :=
  match s with
  | String a (String b r) =>
      if p1 a && p2 b
      then [((if chr_isdecimal a then digit_val a * 10 else 0) + digit_val b, r)%Z]
      else []
  | _ => []
  end.

Definition re_one (p : ascii -> bool) (s : string) : list (Z * string) :=
  match s with
  | String a r => if p a then [(digit_val a, r)] else []
  | _ => []
  end.

Definition re_m (s : string) : list (Z * string) :=
  re_two (Ascii.eqb "1") (cls "0" "2") s ++
  re_two (Ascii.eqb "0") (cls "1" "9") s ++
  re_one (cls "1" "9") s.

Definition re_d (s : string) : list (Z * string) :=
  re_two (Ascii.eqb "3") (cls "0" "1") s ++
  re_two (cls "1" "2") chr_isdecimal s ++
  re_two (Ascii.eqb "0") (cls "1" "9") s ++
  re_one (cls "1" "9") s ++
  re_two (Ascii.eqb " ") (cls "1" "9") s.

Definition re_dash (s : string) : list string :=
  match s with
  | String "-" r => [r]
  | _ => []
  end.

(** The first match of the whole expression, by backtracking. *)
Definition re_match_Ymd (s : string) : option (Z * Z * Z * string) :=
  head
    (flat_map (fun '(y, s1) =>
     flat_map (fun s2 =>
     flat_map (fun '(m, s3) =>
     flat_map (fun s4 =>
     map (fun '(d, s5) => (y, m, d, s5)) (re_d s4))
       (re_dash s3)) (re_m s2)) (re_dash s1)) (re_Y s)).

Definition is_leap (y : Z) : bool :=
  ((y mod 4 =? 0) && (negb (y mod 100 =? 0) || (y mod 400 =? 0)))%Z.

Definition days_in_month (y m : Z) : Z :=
  if (m =? 2)%Z then (if is_leap y then 29 else 28)%Z
  else if ((m =? 4) || (m =? 6) || (m =? 9) || (m =? 11))%Z then 30%Z
  else 31%Z.

(** What [datetime.date(y, m, d)] accepts. *)
Definition date_ok (y m d : Z) : bool :=
  ((1 <=? y) && (y <=? 9999) && (1 <=? m) && (m <=? 12) &&
   (1 <=? d) && (d <=? days_in_month y m))%Z.

(** [None] stands for [ValueError]. *)
Definition strptime_Ymd (s : string) : option (Z * Z * Z) :=
  match re_match_Ymd s with
  | Some (y, m, d, EmptyString) => if date_ok y m d then Some (y, m, d) else None
  | _ => None
  end.

End Py.


(** ** Exceptions and the state-and-exception monad *)

Inductive exn : Type :=
| ValueError (msg : string)
| IndexError (msg : string)
| KeyError (key : string)
| SystemError (msg : string)
| EOFError
| SystemExit.

Inductive outcome (A : Type) : Type :=
| Return (a : A)
| Raise (e : exn).
Arguments Return {A} a.
Arguments Raise {A} e.

(** A computation over a state [S]: the state after the call is returned
    with the result or with the exception. *)
Definition M (S A : Type) : Type := S -> outcome A * S.

Definition ret {S A} (a : A) : M S A := fun s => (Return a, s).
Definition raise {S A} (e : exn) : M S A := fun s => (Raise e, s).
Definition bind {S A B} (m : M S A) (k : A -> M S B) : M S B :=
  fun s =>
    match m s with
    | (Return a, s') => k a s'
    | (Raise e, s') => (Raise e, s')
    end.
Definition get {S} : M S S := fun s => (Return s, s).
Definition put {S} (s : S) : M S unit := fun _ => (Return tt, s).
Definition modify {S} (f : S -> S) : M S unit := fun s => (Return tt, f s).

Notation "'let*' x ':=' m 'in' k" := (bind m (fun x => k))
  (at level 10, x pattern, m at level 100, k at level 200).

(** [str(e)]; for a [KeyError] it is the [repr] of the key, written here
    for a key without quotes or escapes. *)
Definition exn_str (e : exn) : string :=
  match e with
  | ValueError msg | IndexError msg | SystemError msg => msg
  | KeyError key => "'" +:+ key +:+ "'"
  | EOFError | SystemExit => ""
  end.

(** [isinstance(e, Exception)]: [SystemExit] derives from [BaseException]
    only. *)
Definition is_Exception (e : exn) : bool :=
  match e with
  | SystemExit => false
  | _ => true
  end.

(** [a, b = l]; the messages are those of CPython up to 3.13. *)
Definition unpack2 {S} (l : list string) : M S (string * string) :=
  match l with
  | [a; b] => ret (a, b)
  | [] | [_] =>
      raise (ValueError ("not enough values to unpack (expected 2, got "
                         +:+ Py.str_of_nat (length l) +:+ ")"))
  | _ => raise (ValueError "too many values to unpack (expected 2)")
  end.

(** ** Fields *)

Record Field : Type := mkField { _value : string }.

Definition Name : Type := Field.
Definition Phone : Type := Field.
Definition Birthday : Type := Field.

(** [Field.__init__] *)
Definition Field_init (value : string) : outcome Field :=
  Return (mkField value).

(** The getter of the property [Field.value], which [Phone] and
    [Birthday] inherit. *)
Definition value (self : Field) : string := _value self.

(** The setter of [Field.value]. *)
Definition Field_set_value (new_value : string) : M Field unit :=
  put (mkField new_value).

(** [Field.__str__] *)
Definition Field_str (self : Field) : string := value self.

Definition Name_init (value : string) : outcome Name := Field_init value.

(** [Phone.is_valid_phone] *)
Definition is_valid_phone (phone : string) : bool :=
  (Py.len phone =? 10)%nat && Py.isdigit phone.

(** [Phone.__init__] *)
Definition Phone_init (value : string) : outcome Phone :=
  if negb (is_valid_phone value)
  then Raise (ValueError "Invalid phone number format")
  else Field_init value.

(** The setter of [Phone.value]. *)
Definition Phone_set_value (new_value : string) : M Phone unit :=
  if negb (is_valid_phone new_value)
  then raise (ValueError "Invalid phone number format")
  else put (mkField new_value).

(** [Birthday] defines no [__init__]: construction is [Field.__init__],
    which stores into [_value] without going through the setter. *)
Definition Birthday_init (value : string) : outcome Birthday := Field_init value.

(** The setter of [Birthday.value]. *)
Definition Birthday_set_value (new_value : string) : M Birthday unit :=
  match Py.strptime_Ymd new_value with
  | Some _ => put (mkField new_value)
  | None => raise (ValueError "Invalid birthday date format. Use YYYY-MM-DD format.")
  end.

(** ** Record *)

Record Record_ : Type := mkRecord {
  name : Name;
  phones : list Phone;
  birthday : option Birthday
}.

(** [Record.__init__(name, birthday=None)]; [None] and the empty string
    are the falsy values of [birthday]. *)
Definition Record_init (nm : string) (bd : option string) : outcome Record_ :=
  match Name_init nm with
  | Raise e => Raise e
  | Return n =>
      match bd with
      | None | Some EmptyString => Return (mkRecord n [] None)
      | Some b =>
          match Birthday_init b with
          | Raise e => Raise e
          | Return b' => Return (mkRecord n [] (Some b'))
          end
      end
  end.

(** [Record.add_phone] *)
Definition add_phone (phone : string) : M Record_ unit :=
  fun self =>
    match Phone_init phone with
    | Raise e => (Raise e, self)
    | Return p => (Return tt, mkRecord (name self) (phones self ++ [p]) (birthday self))
    end.

(** [Record.remove_phone]: drops the first phone whose value is [phone]. *)
Fixpoint remove_first (phone : string) (ps : list Phone) : list Phone :=
  match ps with
  | [] => []
  | p :: ps' => if String.eqb (value p) phone then ps' else p :: remove_first phone ps'
  end.

Definition remove_phone (phone : string) : M Record_ unit :=
  modify (fun self => mkRecord (name self) (remove_first phone (phones self)) (birthday self)).

(** The [for ... else] loop of [Record.edit_phone] over the phones that
    are left to visit. *)
Fixpoint edit_phone_loop (old_phone new_phone : string) : M (list Phone) unit :=
  fun ps =>
    match ps with
    | [] => (Raise (ValueError "Phone number not found"), [])
    | p :: ps' =>
        if String.eqb (value p) old_phone
        then let '(o, p') := Phone_set_value new_phone p in (o, p' :: ps')
        else let '(o, ps'') := edit_phone_loop old_phone new_phone ps' in (o, p :: ps'')
    end.

(** [Record.edit_phone] *)
Definition edit_phone (old_phone new_phone : string) : M Record_ unit :=
  fun self =>
    let '(o, ps) := edit_phone_loop old_phone new_phone (phones self) in
    (o, mkRecord (name self) ps (birthday self)).

(** [Record.find_phone] *)
Definition find_phone (phone : string) (self : Record_) : option Phone :=
  List.find (fun phone_obj => String.eqb (value phone_obj) phone) (phones self).

(** [Record.__str__] *)
Definition Record_str (self : Record_) : string :=
  let birthday_info :=
    match birthday self with
    | Some b => ", Birthday: " +:+ value b
    | None => ""
    end in
  "Contact name: " +:+ value (name self) +:+ ", phones: "
    +:+ Py.join "; " (map value (phones self)) +:+ birthday_info.

(** ** The heap of [Record] objects, the address book and the console *)

Definition loc : Type := nat.

Record AddressBook : Type := mkBook {
  data : gmap string loc;
  _values : list loc
}.

Record State : Type := mkState {
  heap : list Record_;
  contacts : AddressBook;
  stdout : list string
}.

(** [AddressBook.__init__] and [Assistant.__init__] *)
Definition AddressBook_init : AddressBook := mkBook ∅ [].
Definition Assistant_init : State := mkState [] AddressBook_init [].

(** Allocation of a new object. *)
Definition new (r : Record_) : M State loc :=
  fun st => (Return (length (heap st)),
             mkState (heap st ++ [r]) (contacts st) (stdout st)).

(** Reading an object. A location outside the heap has no counterpart in
    Python, where every reference is live; the model stops there with
    [SystemError]. *)
Definition deref (l : loc) : M State Record_ :=
  fun st =>
    match heap st !! l with
    | Some r => (Return r, st)
    | None => (Raise (SystemError "dangling reference"), st)
    end.

(** A method call [l.method(...)] on the object at [l]. *)
Definition invoke {A} (l : loc) (method : M Record_ A) : M State A :=
  fun st =>
    match heap st !! l with
    | Some r =>
        let '(o, r') := method r in
        (o, mkState (<[l := r']> (heap st)) (contacts st) (stdout st))
    | None => (Raise (SystemError "dangling reference"), st)
    end.

Definition modify_contacts (f : AddressBook -> AddressBook) : M State unit :=
  modify (fun st => mkState (heap st) (f (contacts st)) (stdout st)).

(** [print(s)] *)
Definition print (s : string) : M State unit :=
  modify (fun st => mkState (heap st) (contacts st) (stdout st ++ [s +:+ Py.nl])).

(** [Record(name, birthday)] as an expression: construct, then allocate. *)
Definition Record_new (nm : string) (bd : option string) : M State loc :=
  match Record_init nm bd with
  | Raise e => raise e
  | Return r => new r
  end.

(** ** AddressBook *)

(** [AddressBook.add_record] *)
Definition add_record (record : loc) : M State unit :=
  let* r := deref record in
  let* _ := modify_contacts (fun b =>
              mkBook (<[value (name r) := record]> (data b)) (_values b)) in
  modify_contacts (fun b => mkBook (data b) (_values b ++ [record])).

(** [AddressBook.find] *)
Definition find (nm : string) : M State (option loc) :=
  let* st := get in ret (data (contacts st) !! nm).

(** The comprehension [[record for record in self._values
    if record.name.value != name]]. *)
Fixpoint records_not_named (nm : string) (ls : list loc) : M State (list loc) :=
  match ls with
  | [] => ret []
  | record :: ls' =>
      let* r := deref record in
      let* rest := records_not_named nm ls' in
      ret (if String.eqb (value (name r)) nm then rest else record :: rest)
  end.

(** [AddressBook.delete] *)
Definition delete (nm : string) : M State unit :=
  let* st := get in
  match data (contacts st) !! nm with
  | Some _ =>
      let* _ := modify_contacts (fun b => mkBook (base.delete nm (data b)) (_values b)) in
      let* kept := records_not_named nm (_values (contacts st)) in
      modify_contacts (fun b => mkBook (data b) kept)
  | None => ret tt
  end.

(** [AddressBook.__str__] and the comprehension of [paginated_contacts]:
    [str(record)] for every record of a list. *)
Fixpoint records_str (ls : list loc) : M State (list string) :=
  match ls with
  | [] => ret []
  | record :: ls' =>
      let* r := deref record in
      let* rest := records_str ls' in
      ret (Record_str r :: rest)
  end.

Definition AddressBook_str : M State string :=
  let* st := get in
  let* lines := records_str (_values (contacts st)) in
  ret (Py.join Py.nl lines).

(** [AddressBook.paginated_list] *)
Definition paginated_list (page page_size : Z) : M State (list loc) :=
  let start := ((page - 1) * page_size)%Z in
  let end_ := (start + page_size)%Z in
  let* st := get in
  ret (Py.slice (_values (contacts st)) start end_).

(** ** Assistant *)

(** [Assistant.paginated_contacts] *)
Definition paginated_contacts (page page_size : Z) : M State string :=
  let* contacts := paginated_list page page_size in
  match contacts with
  | [] => ret "No contacts found on this page."
  | _ =>
      let* lines := records_str contacts in
      ret (Py.join Py.nl lines)
  end.

(** The [try] block of the [show page] branch with its
    [except ValueError] handler, which drops the message of the
    exception. *)
Definition show_page (page_str : string) : M State string :=
  fun st =>
    let body :=
      match Py.int page_str with
      | None => raise (ValueError "invalid literal for int() with base 10")
      | Some page =>
          if (page <=? 0)%Z
          then raise (ValueError "Page number must be a positive integer.")
          else paginated_contacts page 5
      end in
    match body st with
    | (Raise (ValueError _), st') => (Return "Invalid page number.", st')
    | r => r
    end.

(** [Assistant.parse_command] *)
Definition parse_command (command : string) : M State string :=
  let command := Py.lower command in
  if String.eqb command "hello" then
    ret "How can I help you?"
  else if Py.startswith command "add " then
    let* (_, data') := unpack2 (Py.split_sep " " 1 command) in
    let parts := Py.split_ws data' in
    match parts with
    | [nm; phone; bd] =>
        let* record := Record_new nm (Some bd) in
        let* _ := add_record record in
        let* st := get in
        match data (contacts st) !! nm with
        | None => raise (KeyError nm)
        | Some contact =>
            let* _ := invoke contact (add_phone phone) in
            ret ("Added contact: " +:+ nm +:+ ", " +:+ phone +:+ ", Birthday: " +:+ bd)
        end
    | _ => ret "Give me name, phone, and birthday (if applicable)"
    end
  else if Py.startswith command "change " then
    let* (_, data') := unpack2 (Py.split_sep " " 1 command) in
    if negb (Py.contains " " data') then
      ret "Give me name and phone please"
    else
      let* (nm, phone) := unpack2 (Py.split_ws data') in
      let* contact := find nm in
      match contact with
      | Some contact =>
          let* r := deref contact in
          match phones r with
          | [] => raise (IndexError "list index out of range")
          | p0 :: _ =>
              let* _ := invoke contact (edit_phone (value p0) phone) in
              ret ("Updated contact: " +:+ nm +:+ ", " +:+ phone)
          end
      | None => raise (ValueError ("Contact '" +:+ nm +:+ "' not found."))
      end
  else if Py.startswith command "phone " then
    let* (_, nm) := unpack2 (Py.split_sep " " 1 command) in
    let* contact := find nm in
    match contact with
    | Some contact =>
        let* r := deref contact in
        match phones r with
        | [] => raise (IndexError "list index out of range")
        | p0 :: _ => ret ("Phone number for " +:+ nm +:+ ": " +:+ value p0)
        end
    | None => raise (ValueError ("Contact '" +:+ nm +:+ "' not found."))
    end
  else if String.eqb command "show all" then
    let* st := get in
    if decide (data (contacts st) = ∅) then ret "No users found"
    else paginated_contacts 1 5
  else if Py.startswith command "show page " then
    let* (_, page_str) := unpack2 (Py.split_sep " " 2 command) in
    show_page page_str
  else if String.eqb command "good bye" || String.eqb command "close"
          || String.eqb command "exit" then
    let* _ := print "Good bye!" in
    raise SystemExit
  else if String.eqb command "add" || String.eqb command "change" then
    ret "Give me name and phone please"
  else if String.eqb command "phone" then
    ret "Give me name please"
  else
    raise (ValueError "Unknown command.").

(** One turn of the loop of [Assistant.run] once [input] has returned
    [command]: the [try] statement with its [except Exception] handler. *)
Definition run_turn (command : string) : M State unit :=
  fun st =>
    match parse_command command st with
    | (Return result, st') =>
        match result with
        | EmptyString => (Return tt, st')
        | _ => print result st'
        end
    | (Raise e, st') =>
        if is_Exception e then print ("Error: " +:+ exn_str e) st'
        else (Raise e, st')
    end.

(** [input(prompt)] writes the prompt and reads one line; at the end of
    the input it raises [EOFError]. The lines still to be read are the
    argument of [run_loop]. *)
Fixpoint run_loop (inputs : list string) : M State unit :=
  match inputs with
  | [] =>
      let* _ := modify (fun st => mkState (heap st) (contacts st)
                                    (stdout st ++ ["Enter a command: "])) in
      raise EOFError
  | command :: rest =>
      let* _ := modify (fun st => mkState (heap st) (contacts st)
                                    (stdout st ++ ["Enter a command: "])) in
      let* _ := run_turn command in
      run_loop rest
  end.

(** [Assistant.run] *)
Definition run (inputs : list string) : M State unit :=
  let* _ := print "Bot assistant is running. Type 'exit' to exit." in
  run_loop inputs.

(** ** Notions of the specification *)

(** The error kinds of the specification are [ValueError]s that differ in
    their message. *)
Definition InvalidFormat_phone : exn := ValueError "Invalid phone number format".
Definition InvalidFormat_birthday : exn :=
  ValueError "Invalid birthday date format. Use YYYY-MM-DD format.".
Definition NotFound_phone : exn := ValueError "Phone number not found".
Definition NotFound_contact (nm : string) : exn :=
  ValueError ("Contact '" +:+ nm +:+ "' not found.").

(** "Exactly 10 characters, all digits", in the words of the
    specification. *)
Definition ten_digits (s : string) : Prop :=
  String.length s = 10 /\
  Forall (fun c => Py.chr_isdigit c = true) (list_ascii_of_string s).

(** "All of them are digits" in the words of the specification: the ten
    characters [0] to [9], listed one by one. *)
Definition decimal_digit (c : ascii) : Prop :=
  In c (list_ascii_of_string "0123456789").

Definition ten_decimal_digits (s : string) : Prop :=
  String.length s = 10 /\ Forall decimal_digit (list_ascii_of_string s).

(** The superscript digits U+00B2, U+00B3 and U+00B9. *)
Definition superscript_digit (c : ascii) : Prop :=
  In c [ascii_of_nat 178; ascii_of_nat 179; ascii_of_nat 185].

(** A phone that ends in the superscript two. *)
Definition phone_superscript : string :=
  "123456789" +:+ String (ascii_of_nat 178) EmptyString.

(** "Matches YYYY-MM-DD with a valid calendar date": the strings that
    [datetime.strptime] accepts for ['%Y-%m-%d']. *)
Definition valid_date (s : string) : Prop := is_Some (Py.strptime_Ymd s).

(** A token of an input line: a non-empty string without white space. *)
Definition token (w : string) : Prop :=
  w <> EmptyString /\ Py.any_char Py.chr_isspace w = false.

(** The characters of a word cut out by [split()]: no white space, and
    whatever holds for all characters of the string. *)
Definition word_of (Q : ascii -> Prop) (w : string) : Prop :=
  w <> EmptyString /\
  Forall (fun c => Py.chr_isspace c = false /\ Q c) (list_ascii_of_string w).

(** ** Allocation invariant and Hoare triples *)

(** Every location held by the book is allocated. *)
Definition heap_ok (st : State) : Prop :=
  Forall (fun l => l < length (heap st)) (_values (contacts st)) /\
  map_Forall (fun _ l => l < length (heap st)) (data (contacts st)).

#[global] Instance heap_ok_dec st : Decision (heap_ok st).
Proof. unfold heap_ok. apply _. Defined.

(** The exceptions of Python; [SystemError] is raised by the model only,
    at a location that is not allocated. *)
Definition python_exn (e : exn) : Prop :=
  match e with
  | SystemError _ => False
  | _ => True
  end.

(** A Hoare triple for computations on the state: started in [P], the
    computation ends in [Q] when it returns and in [E] when it raises. *)
Definition triple {A} (P : State -> Prop) (m : M State A)
    (Q : A -> State -> Prop) (E : exn -> State -> Prop) : Prop :=
  forall st, P st ->
    match m st with
    | (Return a, st') => Q a st'
    | (Raise e, st') => E e st'
    end.

(** The exceptional postcondition of every method: the book still holds
    allocated records only, and the exception is one of Python's. *)
Definition raised_ok (e : exn) (st : State) : Prop := heap_ok st /\ python_exn e.

(** ** Consistency of the two views of the book *)

(** The name of the record at a location. *)
Definition name_at (st : State) (l : loc) : option string :=
  (fun r => value (name r)) <$> heap st !! l.

(** The names of the records of the ordered sequence, in order. *)
Definition entry_names (st : State) : list (option string) :=
  map (name_at st) (_values (contacts st)).

(** The number of entries of the ordered sequence whose record is named
    [nm]. *)
Definition occurrences (st : State) (nm : string) : nat :=
  length (filter (fun n => n = Some nm) (entry_names st)).

(** The invariant of the data model: every key of the mapping has exactly
    one entry in the ordered sequence, and every entry of the ordered
    sequence is the record that the mapping holds under its name. *)
Definition consistent (st : State) : Prop :=
  (forall nm, is_Some (data (contacts st) !! nm) -> occurrences st nm = 1) /\
  (forall l, l ∈ _values (contacts st) ->
     exists r, heap st !! l = Some r /\
               data (contacts st) !! value (name r) = Some l).

(** ** Pagination and [edit_phone] *)

(** [ceil(n / p)] for [p > 0]. *)
Definition ceil_div (n p : Z) : Z := ((n + p - 1) / p)%Z.

(** The first phone whose value is [old_phone] replaced by [new_phone]. *)
Fixpoint replace_first (old_phone new_phone : string) (ps : list Phone) : list Phone :=
  match ps with
  | [] => []
  | p :: ps' =>
      if String.eqb (value p) old_phone then mkField new_phone :: ps'
      else p :: replace_first old_phone new_phone ps'
  end.

(** Some phone of the list has the value [phone]. *)
Definition has_phone (phone : string) (ps : list Phone) : Prop :=
  Exists (fun p => value p = phone) ps.

#[global] Instance has_phone_dec phone ps : Decision (has_phone phone ps).
Proof. unfold has_phone. apply _. Defined.

#[global] Instance ten_digits_dec s : Decision (ten_digits s).
Proof. unfold ten_digits. apply _. Defined.

#[global] Instance valid_date_dec s : Decision (valid_date s).
Proof. unfold valid_date. apply _. Defined.

(** The three sentences about [edit_phone] read as they stand, each for
    every record and every pair of strings. *)
Definition edit_phone_as_stated (self : Record_) (old_phone new_phone : string) : Prop :=
  (has_phone old_phone (phones self) -> ten_digits new_phone ->
   edit_phone old_phone new_phone self
     = (Return tt, mkRecord (name self)
                     (replace_first old_phone new_phone (phones self))
                     (birthday self))) /\
  (~ has_phone old_phone (phones self) ->
   edit_phone old_phone new_phone self = (Raise NotFound_phone, self)) /\
  (~ ten_digits new_phone ->
   edit_phone old_phone new_phone self = (Raise InvalidFormat_phone, self)).

(** ** States used as examples *)

(** [book.add_record(Record(name))] *)
Definition add_new (nm : string) : M State unit :=
  let* record := Record_new nm None in
  add_record record.

(** The state after the turns of [run] on the given lines, up to the
    first turn that raises. *)
Fixpoint turns (commands : list string) (st : State) : State :=
  match commands with
  | [] => st
  | command :: rest =>
      match run_turn command st with
      | (Return _, st') => turns rest st'
      | (Raise _, st') => st'
      end
  end.

Definition after (commands : list string) : State := turns commands Assistant_init.

Definition john_once : State := snd (add_new "john" Assistant_init).
Definition john_twice : State := snd (add_new "john" john_once).

Definition six_contacts : State :=
  after ["add ann 1111111111 1990-01-01"; "add bob 2222222222 1990-01-02";
         "add cat 3333333333 1990-01-03"; "add dan 4444444444 1990-01-04";
         "add eve 5555555555 1990-01-05"; "add fay 6666666666 1990-01-06"].

Definition failed_add : State := after ["add bob 123 1990-05-01"].

(** The lines of a whole session; the line after [exit] is never read. *)
Definition session_lines : list string :=
  ["hello"; "add john 1234567890 1990-05-01"; "phone john";
   "change john 0987654321"; "phone john"; "exit"; "hello"].

(** ** Methods that no command calls

    [Record.days_to_birthday] and the iterator protocol of [AddressBook]
    raise exceptions that the interpreter never sees; they are kept apart
    from [exn]. *)

Inductive exn_ext : Type :=
| Base (e : exn)
| StopIteration
| AttributeError (msg : string).

Inductive result (A : Type) : Type :=
| Returns (a : A)
| Raises (e : exn_ext).
Arguments Returns {A} a.
Arguments Raises {A} e.

(** *** Record.days_to_birthday *)

(** [str(n)] for an integer. *)
Definition str_of_Z (n : Z) : string := NilZero.string_of_int (Z.to_int n).

(** A [date] as year, month and day. *)
Definition date : Type := Z * Z * Z.

(** [datetime(year, month, day).date()]: the constructor checks the year,
    then the month, then the day. *)
Definition datetime_date (year month day : Z) : result date :=
  if negb ((1 <=? year) && (year <=? 9999))%Z then
    Raises (Base (ValueError ("year " +:+ str_of_Z year +:+ " is out of range")))
  else if negb ((1 <=? month) && (month <=? 12))%Z then
    Raises (Base (ValueError "month must be in 1..12"))
  else if negb ((1 <=? day) && (day <=? Py.days_in_month year month))%Z then
    Raises (Base (ValueError "day is out of range for month"))
  else Returns (year, month, day).

Definition days_before_year (year : Z) : Z :=
  let y := (year - 1)%Z in (y * 365 + y / 4 - y / 100 + y / 400)%Z.

Definition days_before_month (year month : Z) : Z :=
  fold_right Z.add 0%Z
    (map (fun m => Py.days_in_month year (Z.of_nat m)) (seq 1 (Z.to_nat (month - 1)))).

(** [d.toordinal()]; dates are ordered and subtracted through it. *)
Definition toordinal (d : date) : Z :=
  let '(year, month, day) := d in
  (days_before_year year + days_before_month year month + day)%Z.

(** The attributes [month] and [day] of a [Birthday]: the instance holds
    [_value] only, and neither [Birthday] nor [Field] defines them. *)
Definition Birthday_month (self : Birthday) : result Z :=
  Raises (AttributeError "'Birthday' object has no attribute 'month'").

Definition Birthday_day (self : Birthday) : result Z :=
  Raises (AttributeError "'Birthday' object has no attribute 'day'").

(** [Record.days_to_birthday]; [today] is [datetime.now().date()]. *)
Definition days_to_birthday (today : date) (self : Record_) : result (option Z) :=
  match birthday self with
  | Some b =>
      let '(today_year, _, _) := today in
      match Birthday_month b with
      | Raises e => Raises e
      | Returns month =>
          match Birthday_day b with
          | Raises e => Raises e
          | Returns day =>
              match datetime_date today_year month day with
              | Raises e => Raises e
              | Returns next_birthday =>
                  if (toordinal next_birthday <? toordinal today)%Z then
                    match datetime_date (today_year + 1) month day with
                    | Raises e => Raises e
                    | Returns next_birthday =>
                        Returns (Some (toordinal next_birthday - toordinal today)%Z)
                    end
                  else Returns (Some (toordinal next_birthday - toordinal today)%Z)
              end
          end
      end
  | None => Returns None
  end.

(** *** The iterator protocol of AddressBook

    The book is its own iterator: the position is the attribute [_index]
    of the book, which [__init__] does not set. A traversal reads
    [_values] only, so it is modelled on the ordered sequence [vs] and
    the attribute. *)

(** [AddressBook.__iter__]: sets [_index] and returns the book itself. *)
Definition AddressBook_iter : M (option nat) unit := put (Some 0).

(** [AddressBook.__next__] *)
Definition AddressBook_next (vs : list loc) (index : option nat)
  : result loc * option nat :=
  match index with
  | None =>
      (Raises (AttributeError "'AddressBook' object has no attribute '_index'"), None)
  | Some i =>
      match vs !! i with
      | Some record => (Returns record, Some (S i))
      | None => (Raises StopIteration, Some i)
      end
  end.

(** The loop of a [for] statement over an iterator that is already
    obtained: [next] until [StopIteration], the body run on every item.
    The body may use the book, hence the attribute, itself. [None] means
    that [fuel] calls of [next] did not reach the end. *)
Fixpoint for_next {Acc : Type} (fuel : nat) (vs : list loc)
    (body : loc -> Acc -> option nat -> option (result Acc * option nat))
    (acc : Acc) (index : option nat) : option (result Acc * option nat) :=
  match fuel with
  | O => None
  | S fuel' =>
      match AddressBook_next vs index with
      | (Returns record, index') =>
          match body record acc index' with
          | Some (Returns acc', index'') => for_next fuel' vs body acc' index''
          | other => other
          end
      | (Raises StopIteration, index') => Some (Returns acc, index')
      | (Raises e, index') => Some (Raises e, index')
      end
  end.

(** [for record in book: body]: [iter(book)], then the loop. *)
Definition for_in {Acc : Type} (fuel : nat) (vs : list loc)
    (body : loc -> Acc -> option nat -> option (result Acc * option nat))
    (acc : Acc) (index : option nat) : option (result Acc * option nat) :=
  let '(_, index') := AddressBook_iter index in
  for_next fuel vs body acc index'.

(** [list(book)], that is [[record for record in book]]. *)
Definition list_of_book (fuel : nat) (vs : list loc) (index : option nat)
  : option (result (list loc) * option nat) :=
  for_in fuel vs (fun record acc index' => Some (Returns (acc ++ [record])%list, index'))
    [] index.

(** [[(a, b) for a in book for b in book]] *)
Definition pairs_of_book (fuel : nat) (vs : list loc) (index : option nat)
  : option (result (list (loc * loc)) * option nat) :=
  for_in fuel vs
    (fun a acc index' =>
       for_in fuel vs
         (fun b acc' index'' => Some (Returns (acc' ++ [(a, b)])%list, index''))
         acc index')
    [] index.

(** ** Invariants of the book and effects of a command *)

(** Every phone of the record is well-formed. *)
Definition phones_valid (self : Record_) : Prop :=
  Forall (fun p => ten_digits (value p)) (phones self).

(** Every key names its record, which is an entry of the ordered
    sequence, and every entry bears a name that is a key. *)
Definition linked (st : State) : Prop :=
  (forall k l, data (contacts st) !! k = Some l ->
     name_at st l = Some k /\ l ∈ _values (contacts st)) /\
  (forall l, l ∈ _values (contacts st) ->
     exists k, name_at st l = Some k /\ is_Some (data (contacts st) !! k)).

(** What the interpreter stores for a contact: a lower-case token as the
    name, at most one phone, a well-formed one, and a birthday. *)
Definition contact_ok (r : Record_) : Prop :=
  token (value (name r)) /\ Py.lower (value (name r)) = value (name r) /\
  phones_valid r /\ length (phones r) <= 1 /\ is_Some (birthday r).

(** What one command does to the heap and the book: nothing, or one
    record more under its name and at the end of the sequence, or a new
    first phone for a record that is found under its name. *)
Inductive effect (st st' : State) : Prop :=
| effect_none :
    heap st' = heap st -> contacts st' = contacts st -> effect st st'
| effect_add (nm bd : string) (ps : list Phone) :
    token nm -> Py.lower nm = nm -> bd <> EmptyString ->
    ps = [] \/ (exists phone, ps = [mkField phone] /\ ten_digits phone) ->
    heap st' = (heap st ++ [mkRecord (mkField nm) ps (Some (mkField bd))])%list ->
    contacts st' = mkBook (<[nm := length (heap st)]> (data (contacts st)))
                     (_values (contacts st) ++ [length (heap st)])%list ->
    effect st st'
| effect_change (nm : string) (contact : loc) (r : Record_)
    (p0 : Phone) (ps : list Phone) (phone : string) :
    data (contacts st) !! nm = Some contact ->
    heap st !! contact = Some r ->
    phones r = p0 :: ps ->
    ten_digits phone ->
    heap st' = <[contact := mkRecord (name r) (mkField phone :: ps) (birthday r)]> (heap st) ->
    contacts st' = contacts st ->
    effect st st'.

(** A computation that leaves the whole state as it is and does not end
    the session. *)
Definition query {A : Type} (m : M State A) : Prop :=
  forall st, snd (m st) = st /\ fst (m st) <> Raise SystemExit.

(** [str(record)] for the records at the given locations. *)
Definition shown (st : State) (ls : list loc) : list string :=
  omap (fun l => Record_str <$> heap st !! l) ls.

(** The lines that end the session. *)
Definition exit_line (command : string) : Prop :=
  Py.lower command = "good bye" \/ Py.lower command = "close" \/
  Py.lower command = "exit".

#[global] Instance exit_line_dec command : Decision (exit_line command).
Proof. unfold exit_line. apply _. Defined.

(** * Properties *)

(** ** Input lines

    The properties of the commands below are stated for every line whose
    lower-cased form starts with the command word. The lemmas of this
    part show that the lines written [add <name> <phone> <birthday>],
    [change <name> <phone>] and [phone <name>] have that form, with the
    lower-cased tokens as the arguments. *)

Lemma append_cons c s t : String c s +:+ t = String c (s +:+ t).
Proof. reflexivity. Qed.

Lemma append_nil_l s : EmptyString +:+ s = s.
Proof. reflexivity. Qed.

Lemma append_nil_r s : s +:+ EmptyString = s.
Proof. induction s as [|c s IH]; [done |]. by rewrite append_cons, IH. Qed.

Lemma append_assoc s t u : (s +:+ t) +:+ u = s +:+ (t +:+ u).
Proof. induction s as [|c s IH]; [done |]. by rewrite !append_cons, IH. Qed.

Lemma lower_app s t : Py.lower (s +:+ t) = Py.lower s +:+ Py.lower t.
Proof.
  induction s as [|c s IH]; [done |].
  rewrite append_cons. simpl. by rewrite IH, append_cons.
Qed.

Lemma chr_lower_isspace c : Py.chr_isspace (Py.chr_lower c) = Py.chr_isspace c.
Proof. destruct c as [[] [] [] [] [] [] [] []]; reflexivity. Qed.

Lemma chr_lower_isdigit c : Py.chr_isdigit (Py.chr_lower c) = Py.chr_isdigit c.
Proof. destruct c as [[] [] [] [] [] [] [] []]; reflexivity. Qed.

Lemma lower_token w : token w -> token (Py.lower w).
Proof.
  intros [Hne Hsp]. split; [by destruct w |].
  clear Hne. induction w as [|c w IH]; [done |]. simpl in *.
  rewrite chr_lower_isspace.
  apply orb_false_iff in Hsp as [-> Hsp]. by apply IH.
Qed.

(** Lower-casing changes neither the length of a string nor which of its
    characters are digits. *)
Lemma is_valid_phone_lower s : is_valid_phone (Py.lower s) = is_valid_phone s.
Proof.
  unfold is_valid_phone, Py.len, Py.isdigit. f_equal.
  - f_equal. induction s as [|c s IH]; [done |]. simpl. by rewrite IH.
  - assert (Py.all_chars Py.chr_isdigit (Py.lower s) = Py.all_chars Py.chr_isdigit s)
      as Hall.
    { induction s as [|c s IH]; [done |]. simpl. by rewrite chr_lower_isdigit, IH. }
    destruct s; [done |]. exact Hall.
Qed.

Lemma split_ws_aux_word w cur rest :
  Py.any_char Py.chr_isspace w = false ->
  Py.split_ws_aux (Some cur) (w +:+ rest) = Py.split_ws_aux (Some (cur +:+ w)) rest.
Proof.
  revert cur. induction w as [|c w IH]; intros cur Hsp.
  - by rewrite append_nil_r.
  - simpl in Hsp. apply orb_false_iff in Hsp as [Hc Hsp].
    rewrite append_cons. simpl. rewrite Hc, (IH _ Hsp), append_assoc.
    by rewrite append_cons.
Qed.

Lemma split_ws_aux_token w rest :
  token w -> Py.split_ws_aux None (w +:+ rest) = Py.split_ws_aux (Some w) rest.
Proof.
  intros [Hne Hsp]. destruct w as [|c w]; [done |].
  simpl in Hsp. apply orb_false_iff in Hsp as [Hc Hsp].
  rewrite append_cons. simpl. rewrite Hc. by rewrite (split_ws_aux_word _ _ _ Hsp).
Qed.

Lemma split_ws_two a b :
  token a -> token b -> Py.split_ws (a +:+ " " +:+ b) = [a; b].
Proof.
  intros Ha Hb. unfold Py.split_ws.
  rewrite (split_ws_aux_token _ _ Ha), append_cons, append_nil_l. simpl.
  rewrite <- (append_nil_r b) at 1. by rewrite (split_ws_aux_token _ _ Hb).
Qed.

Lemma split_ws_three a b c :
  token a -> token b -> token c ->
  Py.split_ws (a +:+ " " +:+ b +:+ " " +:+ c) = [a; b; c].
Proof.
  intros Ha Hb Hc. unfold Py.split_ws.
  rewrite (split_ws_aux_token _ _ Ha), append_cons, append_nil_l. simpl.
  rewrite (split_ws_aux_token _ _ Hb), append_cons, append_nil_l. simpl.
  rewrite <- (append_nil_r c) at 1. by rewrite (split_ws_aux_token _ _ Hc).
Qed.

Lemma contains_app_r c s t :
  Py.contains c t = true -> Py.contains c (s +:+ t) = true.
Proof.
  intros Ht. induction s as [|c' s IH]; [done |].
  rewrite append_cons. unfold Py.contains in *. simpl. rewrite IH. apply orb_true_r.
Qed.

(** The line [add <name> <phone> <birthday>], in any case. *)
Lemma add_line_shape nm phone bd :
  token nm -> token phone -> token bd ->
  let data' := Py.lower nm +:+ " " +:+ Py.lower phone +:+ " " +:+ Py.lower bd in
  Py.lower ("add " +:+ nm +:+ " " +:+ phone +:+ " " +:+ bd) = "add " +:+ data' /\
  Py.split_ws data' = [Py.lower nm; Py.lower phone; Py.lower bd].
Proof.
  intros Hnm Hphone Hbd data'. split.
  - by rewrite !lower_app.
  - apply split_ws_three; by apply lower_token.
Qed.

(** The line [change <name> <phone>], in any case. *)
Lemma change_line_shape nm phone :
  token nm -> token phone ->
  let data' := Py.lower nm +:+ " " +:+ Py.lower phone in
  Py.lower ("change " +:+ nm +:+ " " +:+ phone) = "change " +:+ data' /\
  Py.contains " " data' = true /\
  Py.split_ws data' = [Py.lower nm; Py.lower phone].
Proof.
  intros Hnm Hphone data'. split; [| split].
  - by rewrite !lower_app.
  - by apply contains_app_r.
  - apply split_ws_two; by apply lower_token.
Qed.

(** The lines [phone <name>] and [show page <n>], in any case. *)
Lemma phone_line_shape nm :
  Py.lower ("phone " +:+ nm) = "phone " +:+ Py.lower nm.
Proof. by rewrite lower_app. Qed.

Lemma show_page_line_shape n :
  Py.lower ("show page " +:+ n) = "show page " +:+ Py.lower n.
Proof. by rewrite lower_app. Qed.

(** ** Fields *)

Lemma all_chars_Forall p s :
  Py.all_chars p s = true <-> Forall (fun c => p c = true) (list_ascii_of_string s).
Proof.
  induction s as [|c s IH]; simpl.
  - split; [constructor | reflexivity].
  - rewrite andb_true_iff, IH. split.
    + intros [Hc Hs]. by constructor.
    + inversion 1; subst. by split.
Qed.

Lemma is_valid_phone_spec s : is_valid_phone s = true <-> ten_digits s.
Proof.
  unfold is_valid_phone, ten_digits, Py.len.
  rewrite andb_true_iff, Nat.eqb_eq.
  split; intros [Hlen Hd]; split; try assumption.
  - apply all_chars_Forall. destruct s; [discriminate | exact Hd].
  - destruct s; [discriminate |]. unfold Py.isdigit. by apply all_chars_Forall.
Qed.

Lemma is_valid_phone_false s : is_valid_phone s = false <-> ~ ten_digits s.
Proof.
  rewrite <- is_valid_phone_spec. destruct (is_valid_phone s); split; done.
Qed.

(** [Phone(s)] and the setter of [Phone.value] in terms of
    [is_valid_phone]'s own notion of a digit. *)
Lemma Phone_spec (s : string) :
  (Phone_init s = Return (mkField s) <-> ten_digits s) /\
  (Phone_init s = Raise InvalidFormat_phone <-> ~ ten_digits s) /\
  (forall p : Phone,
     (Phone_set_value s p = (Return tt, mkField s) <-> ten_digits s) /\
     (Phone_set_value s p = (Raise InvalidFormat_phone, p) <-> ~ ten_digits s)).
Proof.
  pose proof (is_valid_phone_spec s) as Hyes.
  pose proof (is_valid_phone_false s) as Hno.
  unfold Phone_init, Phone_set_value, Field_init, raise, put, InvalidFormat_phone.
  destruct (is_valid_phone s); simpl;
    (split; [| split; [| intros p; split]]); intuition congruence.
Qed.

Ltac pick_member := repeat first [left; reflexivity | right].

(** The characters that [str.isdigit] accepts, among the code points up to
    U+00FF, are the ten decimal digits and the three superscript digits. *)
Lemma chr_isdigit_chars (c : ascii) :
  Py.chr_isdigit c = true <-> decimal_digit c \/ superscript_digit c.
Proof.
  unfold decimal_digit, superscript_digit.
  destruct c as [[] [] [] [] [] [] [] []]; vm_compute; split; intros H;
    first [ discriminate H
          | reflexivity
          | solve [left; pick_member]
          | solve [right; pick_member]
          | exfalso; destruct H as [H | H];
            repeat (destruct H as [H | H]; [discriminate H |]); exact H ].
Qed.

Lemma ten_digits_chars (s : string) :
  ten_digits s <->
  String.length s = 10 /\
  Forall (fun c => decimal_digit c \/ superscript_digit c) (list_ascii_of_string s).
Proof.
  unfold ten_digits. split; intros [Hlen Hall]; (split; [exact Hlen |]);
    eapply Forall_impl; try exact Hall; intros c Hc; by apply chr_isdigit_chars.
Qed.

Lemma ten_decimal_digits_ten_digits (s : string) :
  ten_decimal_digits s -> ten_digits s.
Proof.
  intros [Hlen Hall]. apply ten_digits_chars. split; [exact Hlen |].
  eapply Forall_impl; [exact Hall |]. intros c Hc. by left.
Qed.

(** C4. The claim fails on the code: a phone of nine decimal digits and
    the superscript two is no string of ten digits, yet [Phone(s)] and
    the setter accept it, and the [add] line that carries it stores it.
    [is_valid_phone] asks [str.isdigit], which also holds of the
    superscript digits. Strings of ten decimal digits are accepted, as
    the claim says; over the code points up to U+00FF the accepted
    strings are exactly those of ten characters that are decimal or
    superscript digits, and every other string raises the format error,
    the setter leaving the phone as it was. *)
Theorem C4_phone_accepts_superscript_digits :
  (~ ten_decimal_digits phone_superscript /\
   Phone_init phone_superscript = Return (mkField phone_superscript) /\
   (forall p : Phone,
      Phone_set_value phone_superscript p = (Return tt, mkField phone_superscript)) /\
   fst (parse_command ("add john " +:+ phone_superscript +:+ " 1990-05-01")
          Assistant_init)
     = Return ("Added contact: john, " +:+ phone_superscript +:+ ", Birthday: 1990-05-01")) /\
  (forall s, ten_decimal_digits s ->
     Phone_init s = Return (mkField s) /\
     forall p : Phone, Phone_set_value s p = (Return tt, mkField s)) /\
  (forall s,
     Phone_init s = Return (mkField s) <->
     String.length s = 10 /\
     Forall (fun c => decimal_digit c \/ superscript_digit c) (list_ascii_of_string s)) /\
  (forall s,
     ~ (String.length s = 10 /\
        Forall (fun c => decimal_digit c \/ superscript_digit c)
          (list_ascii_of_string s)) ->
     Phone_init s = Raise InvalidFormat_phone /\
     forall p : Phone, Phone_set_value s p = (Raise InvalidFormat_phone, p)).
Proof.
  split; [| split; [| split]].
  - split; [| split; [| split]]; try reflexivity.
    intros [_ Hall]. apply Forall_forall with (x := ascii_of_nat 178) in Hall.
    + unfold decimal_digit in Hall. simpl in Hall.
      repeat (destruct Hall as [Hall | Hall]; [discriminate Hall |]). exact Hall.
    + vm_compute. pick_member.
  - intros s Hs%ten_decimal_digits_ten_digits.
    destruct (Phone_spec s) as (Hinit & _ & Hset).
    split; [by apply Hinit |]. intros p. by apply (Hset p).
  - intros s. rewrite <- ten_digits_chars. apply (Phone_spec s).
  - intros s Hs. rewrite <- ten_digits_chars in Hs.
    destruct (Phone_spec s) as (_ & Hinit & Hset).
    split; [by apply Hinit |]. intros p. by apply (Hset p).
Qed.

(** Construction of a [Birthday] stores any string. *)
Lemma Birthday_init_any (s : string) : Birthday_init s = Return (mkField s).
Proof. reflexivity. Qed.

(** The setter of [Birthday.value] does validate. *)
Lemma Birthday_set_value_spec (s : string) (b : Birthday) :
  Birthday_set_value s b =
    if decide (valid_date s) then (Return tt, mkField s)
    else (Raise InvalidFormat_birthday, b).
Proof.
  unfold Birthday_set_value. case_decide as H; unfold valid_date in H.
  - by destruct H as [d ->].
  - destruct (Py.strptime_Ymd s); [| done]. by destruct H.
Qed.

(** C1. A string that is no date at all is accepted by the constructor of
    [Birthday], directly and through [Record(name, birthday)], although
    the setter of the same field rejects it with the format error. *)
Theorem C1_birthday_constructor_accepts_malformed :
  ~ valid_date "not-a-date" /\
  Birthday_init "not-a-date" = Return (mkField "not-a-date") /\
  Record_init "john" (Some "not-a-date")
    = Return (mkRecord (mkField "john") [] (Some (mkField "not-a-date"))) /\
  Birthday_set_value "not-a-date" (mkField "1990-05-01")
    = (Raise InvalidFormat_birthday, mkField "1990-05-01") /\
  fst (parse_command "add john 1234567890 not-a-date" Assistant_init)
    = Return "Added contact: john, 1234567890, Birthday: not-a-date".
Proof.
  repeat split; try reflexivity.
  intros [d Hd]. vm_compute in Hd. discriminate.
Qed.

(** ** The [show page] command *)

Lemma split_sep_0 sep s : Py.split_sep sep 0 s = [s].
Proof. by destruct s. Qed.

Lemma prefix_nil s : String.prefix "" s = true.
Proof. by destruct s. Qed.

Lemma records_str_outcome ls st :
  (exists lines, records_str ls st = (Return lines, st)) \/
  records_str ls st = (Raise (SystemError "dangling reference"), st).
Proof.
  induction ls as [|l ls IH]; simpl.
  - left. by eexists.
  - unfold bind, deref. destruct (heap st !! l) as [r|]; [| by right].
    destruct IH as [[lines ->] | ->]; [left | by right]. by eexists.
Qed.

Lemma paginated_contacts_no_ValueError page page_size st msg st' :
  paginated_contacts page page_size st <> (Raise (ValueError msg), st').
Proof.
  unfold paginated_contacts, paginated_list, bind, get, ret.
  destruct (Py.slice _ _ _) as [|l ls]; [done |].
  destruct (records_str_outcome (l :: ls) st) as [[lines ->] | ->]; done.
Qed.

(** The handler of the branch, taken alone, is what the specification
    describes: a positive integer shows that page with page size 5,
    anything else is answered with [Invalid page number.] *)
Lemma show_page_spec page_str st :
  show_page page_str st =
    match Py.int page_str with
    | Some page =>
        if (0 <? page)%Z then paginated_contacts page 5 st
        else (Return "Invalid page number.", st)
    | None => (Return "Invalid page number.", st)
    end.
Proof.
  unfold show_page. destruct (Py.int page_str) as [page|]; [| done].
  destruct (Z.leb_spec page 0), (Z.ltb_spec 0 page); try lia; [done |].
  pose proof (paginated_contacts_no_ValueError page 5 st) as Hno.
  destruct (paginated_contacts page 5 st) as [[s | []] st']; try done.
  by destruct (Hno msg st').
Qed.

(** C2. Every input line that reads [show page <n>] once lower-cased is
    answered with the [ValueError] of the failed unpacking of
    [command.split(' ', 2)], whatever [n] and the book are: the branch
    never reaches the page number. *)
Theorem C2_show_page_fails_to_unpack (command n : string) (st : State) :
  Py.lower command = "show page " +:+ n ->
  parse_command command st
    = (Raise (ValueError "too many values to unpack (expected 2)"), st).
Proof.
  intros H. unfold parse_command. rewrite H.
  cbv [String.append]. cbn. by rewrite split_sep_0, prefix_nil.
Qed.

Lemma C2_show_page_fails_to_unpack_witness :
  Py.lower "show page 1" = "show page " +:+ "1" /\
  parse_command "show page 1" Assistant_init
    = (Raise (ValueError "too many values to unpack (expected 2)"), Assistant_init).
Proof.
  split; [reflexivity |].
  apply (C2_show_page_fails_to_unpack "show page 1" "1" Assistant_init).
  reflexivity.
Defined.

(** ** Pagination *)

Section Pagination.

Context {A : Type}.
Implicit Types l : list A.

(** For a positive page size and a page number from 1 on, the slice of
    [paginated_list] is the chunk of [page_size] elements that starts at
    [(page - 1) * page_size]. *)
Lemma slice_chunk l (page page_size : Z) :
  (1 <= page)%Z -> (0 < page_size)%Z ->
  Py.slice l ((page - 1) * page_size) ((page - 1) * page_size + page_size)
    = take (Z.to_nat page_size) (drop (Z.to_nat ((page - 1) * page_size)) l).
Proof.
  intros Hpage Hsize. unfold Py.slice, Py.slice_index.
  set (start := ((page - 1) * page_size)%Z).
  assert (0 <= start)%Z as Hstart by (subst start; nia).
  destruct (Z.ltb_spec start 0) as [|_]; [lia |].
  destruct (Z.ltb_spec (start + page_size) 0) as [|_]; [lia |].
  set (n := Z.of_nat (length l)).
  destruct (Z.le_gt_cases n start) as [Hout | Hin].
  - rewrite !Z.min_r by lia.
    rewrite !drop_ge by lia. by rewrite !take_nil.
  - rewrite (Z.min_l start) by lia.
    destruct (Z.le_gt_cases (start + page_size) n) as [Hfull | Hpart].
    + rewrite Z.min_l by lia. f_equal. lia.
    + rewrite Z.min_r by lia.
      rewrite !take_ge; [done | |]; rewrite length_drop; lia.
Qed.

Lemma concat_chunks l (p k : nat) :
  concat (map (fun i => take p (drop ((i - 1) * p) l)) (seq 1 k)) = take (k * p) l.
Proof.
  induction k as [|k IH]; [done |].
  rewrite seq_S, map_app, concat_app, IH. simpl.
  rewrite app_nil_r, Nat.sub_0_r, take_take_drop. f_equal. lia.
Qed.

End Pagination.

Lemma ceil_div_covers (n p : Z) : (0 < p)%Z -> (n <= ceil_div n p * p)%Z.
Proof.
  intros Hp. unfold ceil_div.
  pose proof (Z.mod_pos_bound (n + p - 1) p Hp).
  pose proof (Z.div_mod (n + p - 1) p). nia.
Qed.

Lemma ceil_div_nonneg (n p : Z) : (0 <= n)%Z -> (0 < p)%Z -> (0 <= ceil_div n p)%Z.
Proof. intros Hn Hp. unfold ceil_div. apply Z.div_pos; lia. Qed.

Lemma paginated_list_chunk (page page_size : Z) (st : State) :
  (1 <= page)%Z -> (0 < page_size)%Z ->
  paginated_list page page_size st
    = (Return (take (Z.to_nat page_size)
                 (drop (Z.to_nat ((page - 1) * page_size)) (_values (contacts st)))), st).
Proof.
  intros Hpage Hsize. unfold paginated_list, bind, get, ret.
  by rewrite slice_chunk.
Qed.

(** C5. With a positive page size [P] and [N] records in the ordered
    sequence, the pages 1 to [ceil(N/P)] are returned one after the other
    and their concatenation is the whole ordered sequence; every later
    page is empty. *)
Theorem C5_pages_cover_the_sequence (st : State) (P : Z) :
  (0 < P)%Z ->
  let N := Z.of_nat (length (_values (contacts st))) in
  (exists pages : list (list loc),
     Forall2 (fun page records =>
                paginated_list (Z.of_nat page) P st = (Return records, st))
             (seq 1 (Z.to_nat (ceil_div N P))) pages /\
     concat pages = _values (contacts st)) /\
  (forall page : Z,
     (ceil_div N P < page)%Z -> paginated_list page P st = (Return [], st)).
Proof.
  intros HP N.
  pose proof (ceil_div_covers N P HP) as Hcov.
  pose proof (ceil_div_nonneg N P ltac:(lia) HP) as Hnn.
  split.
  - exists (map (fun i => take (Z.to_nat P)
                       (drop ((i - 1) * Z.to_nat P) (_values (contacts st))))
             (seq 1 (Z.to_nat (ceil_div N P)))).
    split.
    + apply Forall2_fmap_r, Forall_Forall2_diag, Forall_forall.
      intros i Hi. apply elem_of_seq in Hi.
      rewrite paginated_list_chunk by lia. do 3 f_equal.
      replace (Z.of_nat i - 1)%Z with (Z.of_nat (i - 1)) by lia.
      rewrite Z2Nat.inj_mul by lia. by rewrite Nat2Z.id.
    + rewrite concat_chunks. apply take_ge.
      apply Nat2Z.inj_le. rewrite Nat2Z.inj_mul, !Z2Nat.id by lia. by fold N.
  - intros page Hpage. rewrite paginated_list_chunk by lia.
    rewrite drop_ge; [by rewrite take_nil |].
    apply Nat2Z.inj_le. rewrite Z2Nat.id by nia. fold N. nia.
Qed.

Lemma C5_pages_cover_the_sequence_witness :
  (0 < 5)%Z /\
  (exists pages : list (list loc),
     Forall2 (fun page records =>
                paginated_list (Z.of_nat page) 5 six_contacts
                  = (Return records, six_contacts))
             (seq 1 2) pages /\
     concat pages = [0; 1; 2; 3; 4; 5]) /\
  (forall page : Z,
     (2 < page)%Z -> paginated_list page 5 six_contacts = (Return [], six_contacts)).
Proof.
  split; [lia |].
  apply (C5_pages_cover_the_sequence six_contacts 5). lia.
Defined.

(** ** Record.edit_phone *)

Lemma has_phone_nil phone : ~ has_phone phone [].
Proof. unfold has_phone. by intros H%Exists_nil. Qed.

Lemma has_phone_cons phone p ps :
  has_phone phone (p :: ps) <-> value p = phone \/ has_phone phone ps.
Proof. unfold has_phone. apply Exists_cons. Qed.

Lemma edit_phone_loop_spec (old_phone new_phone : string) (ps : list Phone) :
  edit_phone_loop old_phone new_phone ps =
    if decide (has_phone old_phone ps) then
      if decide (ten_digits new_phone)
      then (Return tt, replace_first old_phone new_phone ps)
      else (Raise InvalidFormat_phone, ps)
    else (Raise NotFound_phone, ps).
Proof.
  induction ps as [|p ps IH]; cbn [edit_phone_loop replace_first].
  - rewrite decide_False by apply has_phone_nil. done.
  - destruct (String.eqb_spec (value p) old_phone) as [Heq | Hne].
    + rewrite decide_True by (apply has_phone_cons; by left).
      unfold Phone_set_value, raise, put.
      destruct (decide (ten_digits new_phone)) as [Hten | Hten].
      * apply is_valid_phone_spec in Hten. by rewrite Hten.
      * apply is_valid_phone_false in Hten. by rewrite Hten.
    + rewrite IH. clear IH.
      destruct (decide (has_phone old_phone ps)) as [Hin | Hin];
        destruct (decide (has_phone old_phone (p :: ps))) as [Hin' | Hin'].
      * by destruct (decide (ten_digits new_phone)).
      * destruct Hin'. apply has_phone_cons. by right.
      * apply has_phone_cons in Hin' as [? | ?]; contradiction.
      * done.
Qed.

(** C6. [edit_phone(old, new)]: when no phone of the record equals [old]
    it fails with the not-found error, whatever [new] is; when some phone
    equals [old] and [new] is malformed it fails with the format error;
    otherwise the first phone equal to [old] becomes [new]. The record is
    left as it was in both failures. *)
Theorem C6_edit_phone_outcomes (self : Record_) (old_phone new_phone : string) :
  edit_phone old_phone new_phone self =
    if decide (has_phone old_phone (phones self)) then
      if decide (ten_digits new_phone)
      then (Return tt, mkRecord (name self)
                         (replace_first old_phone new_phone (phones self))
                         (birthday self))
      else (Raise InvalidFormat_phone, self)
    else (Raise NotFound_phone, self).
Proof.
  unfold edit_phone. rewrite edit_phone_loop_spec.
  destruct self as [n ps b]; simpl.
  repeat case_decide; done.
Qed.

(** C6, as stated, fails on a record without phones and a malformed new
    phone: the error is the not-found one. *)
Lemma C6_edit_phone_counterexample :
  ~ edit_phone_as_stated (mkRecord (mkField "john") [] None) "1234567890" "123".
Proof.
  intros (_ & _ & Hbad).
  assert (~ ten_digits "123") as Hten by (intros [Hlen _]; discriminate Hlen).
  specialize (Hbad Hten). discriminate Hbad.
Qed.

(** ** AddressBook: add_record, find, delete *)

Lemma deref_Some l r st : heap st !! l = Some r -> deref l st = (Return r, st).
Proof. intros H. unfold deref. by rewrite H. Qed.

Lemma records_not_named_total nm ls st :
  Forall (fun l => l < length (heap st)) ls ->
  exists kept, records_not_named nm ls st = (Return kept, st) /\ kept ⊆ ls.
Proof.
  induction 1 as [|l ls Hl _ (kept & IH & Hsub)]; simpl.
  - by eexists.
  - apply lookup_lt_is_Some in Hl as [r Hr].
    unfold bind. rewrite (deref_Some _ _ _ Hr), IH. unfold ret.
    eexists; split; [done |].
    destruct (String.eqb _ _); intros x Hx.
    + right. by apply Hsub.
    + apply elem_of_cons in Hx as [-> | Hx]; [left | right; by apply Hsub].
Qed.

(** C7. On a book whose records are all allocated, [delete(name)] returns
    normally and [find(name)] is [None] afterwards; when [name] is not a
    key, [delete(name)] leaves the whole state as it was. *)
Theorem C7_delete_then_find (st : State) (nm : string) :
  heap_ok st ->
  exists st',
    delete nm st = (Return tt, st') /\
    find nm st' = (Return None, st') /\
    (data (contacts st) !! nm = None -> st' = st).
Proof.
  intros [Hvals _]. unfold delete, find, bind, get, ret.
  destruct (data (contacts st) !! nm) as [l|] eqn:Hnm.
  - unfold modify_contacts, modify; simpl.
    edestruct (records_not_named_total nm (_values (contacts st))) as (kept & -> & _);
      [exact Hvals |].
    simpl. eexists; split; [done |]. split; [| done].
    simpl. by rewrite lookup_delete_eq.
  - exists st. by rewrite Hnm.
Qed.

Lemma C7_delete_then_find_witness :
  heap_ok six_contacts /\
  exists st',
    delete "cat" six_contacts = (Return tt, st') /\
    find "cat" st' = (Return None, st') /\
    (data (contacts six_contacts) !! "cat" = None -> st' = six_contacts).
Proof.
  assert (heap_ok six_contacts) as Hok by (apply (bool_decide_unpack _); by vm_compute).
  split; [exact Hok |].
  exact (C7_delete_then_find six_contacts "cat" Hok).
Defined.

(** C8. [add_record(record)] returns normally, and [find] with the name
    of [record] then returns that very record, whose name is unchanged. *)
Theorem C8_add_record_then_find (st : State) (record : loc) (r : Record_) :
  heap st !! record = Some r ->
  exists st',
    add_record record st = (Return tt, st') /\
    find (value (name r)) st' = (Return (Some record), st') /\
    heap st' !! record = Some r.
Proof.
  intros Hr. unfold add_record, find, bind, get, ret.
  rewrite (deref_Some _ _ _ Hr). unfold modify_contacts, modify; simpl.
  eexists; split; [done |]. simpl. by rewrite lookup_insert_eq.
Qed.

Lemma C8_add_record_then_find_witness :
  heap six_contacts !! 2 = Some (mkRecord (mkField "cat") [mkField "3333333333"]
                                   (Some (mkField "1990-01-03"))) /\
  exists st',
    add_record 2 six_contacts = (Return tt, st') /\
    find "cat" st' = (Return (Some 2), st') /\
    heap st' !! 2 = Some (mkRecord (mkField "cat") [mkField "3333333333"]
                            (Some (mkField "1990-01-03"))).
Proof.
  split; [reflexivity |].
  apply (C8_add_record_then_find six_contacts 2
           (mkRecord (mkField "cat") [mkField "3333333333"] (Some (mkField "1990-01-03")))).
  reflexivity.
Defined.

(** ** The [add] command *)

Lemma append_nonempty w c : w +:+ String c EmptyString <> EmptyString.
Proof. by destruct w. Qed.

Lemma split_ws_aux_nonempty cur s :
  (forall w, cur = Some w -> w <> EmptyString) ->
  Forall (fun w => w <> EmptyString) (Py.split_ws_aux cur s).
Proof.
  revert cur. induction s as [|c s IH]; intros cur Hcur; simpl.
  - destruct cur; [| done]. constructor; [by apply Hcur | done].
  - destruct (Py.chr_isspace c), cur as [w|].
    + constructor; [by apply Hcur |]. by apply IH.
    + by apply IH.
    + apply IH. intros ? [= <-]. apply append_nonempty.
    + apply IH. by intros ? [= <-].
Qed.

Lemma split_ws_nonempty s : Forall (fun w => w <> EmptyString) (Py.split_ws s).
Proof. by apply split_ws_aux_nonempty. Qed.

Lemma Record_new_nonempty nm bd st :
  bd <> EmptyString ->
  Record_new nm (Some bd) st =
    (Return (length (heap st)),
     mkState (heap st ++ [mkRecord (mkField nm) [] (Some (mkField bd))])
             (contacts st) (stdout st)).
Proof. by destruct bd. Qed.



(** C10. When the record found under a name has no phone, a [change]
    line for that name and a [phone] line for that name both raise
    [IndexError] at [contact.phones[0]], which the loop prints; no
    not-found or format error is produced and the state is untouched. *)
Theorem C10_first_phone_unguarded (st : State) (nm : string) (contact : loc) (r : Record_) :
  data (contacts st) !! nm = Some contact ->
  heap st !! contact = Some r ->
  phones r = [] ->
  let printed := mkState (heap st) (contacts st)
                   (stdout st ++ ["Error: list index out of range" +:+ Py.nl]) in
  (forall command data' phone,
     Py.lower command = "change " +:+ data' ->
     Py.contains " " data' = true ->
     Py.split_ws data' = [nm; phone] ->
     parse_command command st = (Raise (IndexError "list index out of range"), st) /\
     run_turn command st = (Return tt, printed)) /\
  (forall command,
     Py.lower command = "phone " +:+ nm ->
     parse_command command st = (Raise (IndexError "list index out of range"), st) /\
     run_turn command st = (Return tt, printed)).
Proof.
  intros Hnm Hr Hphones printed.
  assert (forall command,
    parse_command command st = (Raise (IndexError "list index out of range"), st) ->
    run_turn command st = (Return tt, printed)) as Hturn.
  { intros command Hparse. unfold run_turn. by rewrite Hparse. }
  split.
  - intros command data' phone Hlower Hspace Hsplit.
    assert (parse_command command st
            = (Raise (IndexError "list index out of range"), st)) as Hparse;
      [| by auto].
    unfold parse_command. rewrite Hlower. cbv [String.append]. cbn.
    rewrite prefix_nil, split_sep_0. cbn. rewrite Hspace, Hsplit. cbn.
    unfold bind, find, get, ret. rewrite Hnm.
    rewrite (deref_Some _ _ _ Hr). by rewrite Hphones.
  - intros command Hlower.
    assert (parse_command command st
            = (Raise (IndexError "list index out of range"), st)) as Hparse;
      [| by auto].
    unfold parse_command. rewrite Hlower. cbv [String.append]. cbn.
    rewrite prefix_nil, split_sep_0. cbn.
    unfold bind, find, get, ret. rewrite Hnm.
    rewrite (deref_Some _ _ _ Hr). by rewrite Hphones.
Qed.

Lemma C10_first_phone_unguarded_witness :
  data (contacts failed_add) !! "bob" = Some 0 /\
  heap failed_add !! 0
    = Some (mkRecord (mkField "bob") [] (Some (mkField "1990-05-01"))) /\
  parse_command "change bob 1234567890" failed_add
    = (Raise (IndexError "list index out of range"), failed_add) /\
  parse_command "phone bob" failed_add
    = (Raise (IndexError "list index out of range"), failed_add).
Proof.
  destruct (C10_first_phone_unguarded failed_add "bob" 0
              (mkRecord (mkField "bob") [] (Some (mkField "1990-05-01")))
              eq_refl eq_refl eq_refl) as [Hchange Hphone].
  split; [reflexivity |]. split; [reflexivity |]. split.
  - apply (Hchange "change bob 1234567890" "bob 1234567890" "1234567890");
      reflexivity.
  - apply (Hphone "phone bob"). reflexivity.
Defined.

(** ** Consistency of the two views of the book *)

Lemma add_record_eq record r st :
  heap st !! record = Some r ->
  add_record record st =
    (Return tt,
     mkState (heap st)
       (mkBook (<[value (name r) := record]> (data (contacts st)))
               (_values (contacts st) ++ [record]))
       (stdout st)).
Proof.
  intros Hr. unfold add_record, bind. by rewrite (deref_Some _ _ _ Hr).
Qed.

Lemma occurrences_pos st nm :
  0 < occurrences st nm ->
  exists l, l ∈ _values (contacts st) /\ name_at st l = Some nm.
Proof.
  unfold occurrences, entry_names. intros Hpos.
  destruct (filter _ _) as [|n ns] eqn:Hf; [simpl in Hpos; lia |].
  assert (n ∈ filter (fun n => n = Some nm) (map (name_at st) (_values (contacts st))))
    as Hn by (rewrite Hf; left).
  apply list_elem_of_filter in Hn as [-> Hn].
  apply list_elem_of_fmap in Hn as (l & Hl & Hin). by exists l.
Qed.

Lemma occurrences_snoc h d d' vs out record nm :
  occurrences (mkState h (mkBook d' (vs ++ [record])) out) nm =
  occurrences (mkState h (mkBook d vs) out) nm
    + (if decide ((fun r => value (name r)) <$> h !! record = Some nm) then 1 else 0).
Proof.
  unfold occurrences, entry_names, name_at; simpl.
  rewrite map_app, filter_app, length_app. f_equal. simpl.
  rewrite filter_cons, filter_nil. by destruct (decide _).
Qed.

Lemma consistent_init : consistent Assistant_init.
Proof.
  split.
  - intros nm [l Hl]. simpl in Hl. by rewrite lookup_empty in Hl.
  - intros l Hl. simpl in Hl. by apply elem_of_nil in Hl.
Qed.

(** [add_record] keeps the two views consistent when the name is new. *)
Lemma add_record_fresh_consistent st record r :
  consistent st ->
  heap st !! record = Some r ->
  data (contacts st) !! value (name r) = None ->
  consistent (snd (add_record record st)).
Proof.
  intros [Hkeys Hentries] Hr Hfresh. rewrite (add_record_eq _ _ _ Hr). simpl.
  destruct st as [h [d vs] out]; simpl in *. split; simpl.
  - intros nm Hnm. rewrite (occurrences_snoc h d), Hr. simpl.
    destruct (decide (value (name r) = nm)) as [<- | Hne].
    + rewrite decide_True by done.
      destruct (occurrences (mkState h (mkBook d vs) out) (value (name r))) eqn:Hocc;
        [done |].
      destruct (occurrences_pos (mkState h (mkBook d vs) out) (value (name r)))
        as (l & Hl & Hname); [lia |].
      destruct (Hentries l Hl) as (r' & Hr' & Hd).
      unfold name_at in Hname; simpl in Hname. rewrite Hr' in Hname.
      injection Hname as Hname. congruence.
    + rewrite decide_False by congruence.
      rewrite lookup_insert_ne in Hnm by done. rewrite (Hkeys nm Hnm). lia.
  - intros l [Hl | ->%list_elem_of_singleton]%elem_of_app.
    + destruct (Hentries l Hl) as (r' & Hr' & Hd). exists r'. split; [done |].
      rewrite lookup_insert_ne; [done | congruence].
    + exists r. split; [done |]. by rewrite lookup_insert_eq.
Qed.

(** [add_record] under a name that is already a key breaks it: the old
    entry stays in the ordered sequence next to the new one. *)
Lemma add_record_existing_inconsistent st record r :
  consistent st ->
  heap st !! record = Some r ->
  is_Some (data (contacts st) !! value (name r)) ->
  ~ consistent (snd (add_record record st)).
Proof.
  intros [Hkeys _] Hr Hkey. rewrite (add_record_eq _ _ _ Hr). simpl.
  intros [Hkeys' _].
  specialize (Hkeys _ Hkey). specialize (Hkeys' (value (name r))).
  destruct st as [h [d vs] out]; simpl in *.
  rewrite lookup_insert_eq in Hkeys'. specialize (Hkeys' ltac:(by eexists)).
  rewrite (occurrences_snoc h d), Hr in Hkeys'. simpl in Hkeys'.
  rewrite decide_True in Hkeys' by done. lia.
Qed.

Lemma records_not_named_filter nm ls st :
  Forall (fun l => is_Some (heap st !! l)) ls ->
  records_not_named nm ls st
    = (Return (filter (fun l => name_at st l <> Some nm) ls), st).
Proof.
  induction 1 as [|l ls [r Hr] _ IH]; [done |].
  simpl. unfold bind. rewrite (deref_Some _ _ _ Hr), IH. unfold ret.
  assert (name_at st l = Some (value (name r))) as Hn
    by (unfold name_at; by rewrite Hr).
  rewrite filter_cons, Hn.
  destruct (String.eqb_spec (value (name r)) nm) as [-> | Hne].
  - by rewrite decide_False by (by intros []).
  - by rewrite decide_True by congruence.
Qed.

Lemma delete_eq nm st :
  Forall (fun l => is_Some (heap st !! l)) (_values (contacts st)) ->
  delete nm st =
    (Return tt,
     match data (contacts st) !! nm with
     | Some _ =>
         mkState (heap st)
           (mkBook (base.delete nm (data (contacts st)))
                   (filter (fun l => name_at st l <> Some nm) (_values (contacts st))))
           (stdout st)
     | None => st
     end).
Proof.
  intros Hlive. unfold delete, bind, get.
  destruct (data (contacts st) !! nm); [| done].
  unfold modify_contacts, modify. simpl.
  by rewrite records_not_named_filter.
Qed.

Lemma filter_other_name (f : loc -> option string) nm k (ls : list loc) :
  k <> nm ->
  filter (fun n => n = Some k) (map f (filter (fun l => f l <> Some nm) ls))
    = filter (fun n => n = Some k) (map f ls).
Proof.
  intros Hne. induction ls as [|l ls IH]; [done |].
  rewrite filter_cons. destruct (decide (f l <> Some nm)) as [Hl | Hl].
  - simpl. rewrite !filter_cons, IH. done.
  - simpl. rewrite filter_cons, IH.
    rewrite decide_False; [done |].
    intros Hk. apply Hl. rewrite Hk. congruence.
Qed.

(** [delete] keeps the two views consistent. *)
Lemma delete_consistent st nm :
  consistent st -> consistent (snd (delete nm st)).
Proof.
  intros Hcons. pose proof Hcons as [Hkeys Hentries].
  rewrite delete_eq.
  2:{ apply Forall_forall. intros l Hl.
      destruct (Hentries l Hl) as (r & Hr & _). by eexists. }
  simpl. destruct (data (contacts st) !! nm) as [l0|] eqn:Hnm; [| done].
  split; simpl.
  - intros k [l [Hk Hl]%lookup_delete_Some].
    rewrite <- (Hkeys k) by (by eexists).
    unfold occurrences, entry_names; simpl. f_equal.
    by apply (filter_other_name (name_at st)).
  - intros l [Hname Hl]%list_elem_of_filter.
    destruct (Hentries l Hl) as (r & Hr & Hd). exists r. split; [done |].
    rewrite lookup_delete_ne; [done |].
    intros ->. apply Hname. unfold name_at. by rewrite Hr.
Qed.

(** C3. Adding a second record named [john] to a consistent book leaves
    one key [john] in the mapping and two entries named [john] in the
    ordered sequence: the invariant holds for the empty book and after
    the first [add_record], and fails after the second. *)
Theorem C3_add_record_same_name_breaks_consistency :
  consistent Assistant_init /\
  consistent john_once /\
  add_new "john" john_once = (Return tt, john_twice) /\
  map_to_list (data (contacts john_twice)) = [("john", 1)] /\
  _values (contacts john_twice) = [0; 1] /\
  occurrences john_twice "john" = 2 /\
  ~ consistent john_twice.
Proof.
  assert (consistent john_once) as Hone.
  { apply (add_record_fresh_consistent
             (mkState [mkRecord (mkField "john") [] None] AddressBook_init [])
             0 (mkRecord (mkField "john") [] None)); [| done | done].
    split; [intros nm [l Hl]; simpl in Hl; by rewrite lookup_empty in Hl |].
    intros l Hl. simpl in Hl. by apply elem_of_nil in Hl. }
  split; [apply consistent_init |]. split; [exact Hone |].
  repeat split; try by vm_compute.
  apply (add_record_existing_inconsistent
           (mkState (heap john_once ++ [mkRecord (mkField "john") [] None])
                    (contacts john_once) [])
           1 (mkRecord (mkField "john") [] None)); [| done | by eexists].
  destruct Hone as [Hkeys Hentries]. split.
  - intros nm Hnm. exact (Hkeys nm Hnm).
  - intros l Hl. destruct (Hentries l Hl) as (r & Hr & Hd).
    exists r. split; [| exact Hd]. exact (lookup_app_l_Some _ _ _ _ Hr).
Qed.

(** ** Reachable states

    Every command keeps the locations of the book inside the heap, so the
    hypothesis [heap_ok] of the properties above holds in every state the
    interpreter can reach, and no command stops at an unallocated
    location. *)

Section Triples.

Context {A B : Type}.
Implicit Types (P : State -> Prop) (E : exn -> State -> Prop).

Lemma triple_ret P (a : A) (Q : A -> State -> Prop) E :
  (forall st, P st -> Q a st) -> triple P (ret a) Q E.
Proof. intros H st HP. by apply H. Qed.

Lemma triple_raise P e (Q : A -> State -> Prop) E :
  (forall st, P st -> E e st) -> triple P (raise e) Q E.
Proof. intros H st HP. by apply H. Qed.

Lemma triple_bind P (m : M State A) (k : A -> M State B) R Q E :
  triple P m R E -> (forall a, triple (R a) (k a) Q E) -> triple P (bind m k) Q E.
Proof.
  intros Hm Hk st HP. unfold bind. specialize (Hm st HP).
  destruct (m st) as [[a | e] st']; [by apply Hk | done].
Qed.

Lemma triple_pre P P' (m : M State A) Q E :
  (forall st, P' st -> P st) -> triple P m Q E -> triple P' m Q E.
Proof. intros H Hm st HP. by apply Hm, H. Qed.

Lemma triple_post P (m : M State A) (Q Q' : A -> State -> Prop) E :
  (forall a st, Q a st -> Q' a st) -> triple P m Q E -> triple P m Q' E.
Proof.
  intros H Hm st HP. specialize (Hm st HP).
  destruct (m st) as [[a | e] st']; [by apply H | done].
Qed.

End Triples.

Lemma triple_get P E : triple P get (fun s st => s = st /\ P st) E.
Proof. by intros st HP. Qed.

Lemma heap_ok_init : heap_ok Assistant_init.
Proof. split; [constructor | apply map_Forall_empty]. Qed.

Lemma heap_ok_stdout h b out out' :
  heap_ok (mkState h b out) -> heap_ok (mkState h b out').
Proof. done. Qed.

Lemma allocated st (l : loc) :
  l < length (heap st) -> exists r, heap st !! l = Some r.
Proof. intros Hl. exact (lookup_lt_is_Some_2 _ _ Hl). Qed.

Lemma unpack2_ok l :
  triple heap_ok (unpack2 l) (fun _ => heap_ok) raised_ok.
Proof.
  intros st Hok. by destruct l as [|a [|b [|c l]]].
Qed.

Lemma print_ok s : triple heap_ok (print s) (fun _ => heap_ok) raised_ok.
Proof. intros [h b out] Hok. exact Hok. Qed.

Lemma Record_new_ok nm bd :
  triple heap_ok (Record_new nm bd)
    (fun l st => heap_ok st /\ l < length (heap st)) raised_ok.
Proof.
  intros [h [d vs] out] [Hvs Hd]. unfold Record_new.
  assert (exists r, Record_init nm bd = Return r) as [r ->].
  { unfold Record_init. simpl. destruct bd as [[|c b] |]; by eexists. }
  simpl in *. split; [split |]; simpl.
  - eapply Forall_impl; [exact Hvs |]. intros l Hl. rewrite length_app. simpl in *. lia.
  - eapply map_Forall_impl; [exact Hd |]. intros k l Hl. rewrite length_app. simpl in *. lia.
  - rewrite length_app. simpl. lia.
Qed.

Lemma add_record_ok (record : loc) :
  triple (fun st => heap_ok st /\ record < length (heap st)) (add_record record)
    (fun _ => heap_ok) raised_ok.
Proof.
  intros st [[Hvs Hd] Hrecord].
  destruct (allocated _ _ Hrecord) as [r Hr].
  rewrite (add_record_eq _ _ _ Hr). split; simpl.
  - apply Forall_app. split; [done | by repeat constructor].
  - by apply map_Forall_insert_2.
Qed.

Lemma find_ok nm :
  triple heap_ok (find nm)
    (fun contact st =>
       heap_ok st /\ forall l, contact = Some l -> l < length (heap st))
    raised_ok.
Proof.
  intros st Hok. unfold find, bind, get, ret. split; [done |].
  intros l Hl. destruct Hok as [_ Hd]. exact (Hd nm l Hl).
Qed.

Lemma deref_ok (l : loc) :
  triple (fun st => heap_ok st /\ l < length (heap st)) (deref l)
    (fun _ st => heap_ok st /\ l < length (heap st)) raised_ok.
Proof.
  intros st [Hok Hl].
  destruct (allocated _ _ Hl) as [r Hr].
  by rewrite (deref_Some _ _ _ Hr).
Qed.

Lemma invoke_ok {A} (l : loc) (method : M Record_ A) :
  (forall r e r', method r = (Raise e, r') -> python_exn e) ->
  triple (fun st => heap_ok st /\ l < length (heap st)) (invoke l method)
    (fun _ => heap_ok) raised_ok.
Proof.
  intros Hexn st [[Hvs Hd] Hl]. unfold invoke.
  destruct (allocated _ _ Hl) as [r Hr]. rewrite Hr.
  destruct (method r) as [[a | e] r'] eqn:Hm.
  - split; simpl; by rewrite length_insert.
  - split; [split; simpl; by rewrite length_insert | by eapply Hexn].
Qed.

Lemma add_phone_exn phone r e r' :
  add_phone phone r = (Raise e, r') -> python_exn e.
Proof.
  unfold add_phone, Phone_init, Field_init.
  destruct (negb _); [| done]. by intros [= <- _].
Qed.

Lemma edit_phone_exn old_phone new_phone r e r' :
  edit_phone old_phone new_phone r = (Raise e, r') -> python_exn e.
Proof.
  unfold edit_phone. rewrite edit_phone_loop_spec.
  repeat case_decide; by intros [= <- _].
Qed.

Lemma records_str_total ls st :
  Forall (fun l => l < length (heap st)) ls ->
  exists lines, records_str ls st = (Return lines, st).
Proof.
  induction 1 as [|l ls Hl _ [lines IH]]; simpl.
  - by eexists.
  - destruct (allocated _ _ Hl) as [r Hr].
    unfold bind. rewrite (deref_Some _ _ _ Hr), IH. by eexists.
Qed.

Lemma slice_Forall {A} (P : A -> Prop) (l : list A) start stop :
  Forall P l -> Forall P (Py.slice l start stop).
Proof. intros H. unfold Py.slice. by apply Forall_take, Forall_drop. Qed.

Lemma paginated_contacts_ok page page_size :
  triple heap_ok (paginated_contacts page page_size) (fun _ => heap_ok) raised_ok.
Proof.
  intros st Hok. unfold paginated_contacts, paginated_list, bind, get, ret.
  pose proof (slice_Forall _ _ ((page - 1) * page_size)
                ((page - 1) * page_size + page_size) (proj1 Hok)) as Hslice.
  destruct (Py.slice _ _ _) as [|l ls]; [done |].
  by destruct (records_str_total _ _ Hslice) as [lines ->].
Qed.

Lemma show_page_ok page_str :
  triple heap_ok (show_page page_str) (fun _ => heap_ok) raised_ok.
Proof.
  intros st Hok. rewrite show_page_spec.
  destruct (Py.int page_str) as [page|]; [| done].
  destruct (0 <? page)%Z; [| done].
  by apply paginated_contacts_ok.
Qed.

(** Every command keeps the book inside the heap and raises exceptions of
    Python only. *)
Lemma parse_command_ok command :
  triple heap_ok (parse_command command) (fun _ => heap_ok) raised_ok.
Proof.
  unfold parse_command.
  destruct (String.eqb _ "hello"); [by apply triple_ret |].
  destruct (Py.startswith _ "add ").
  { eapply triple_bind; [apply unpack2_ok |]. intros [? data'].
    destruct (Py.split_ws data') as [|nm [|phone [|bd [|? ?]]]];
      try by apply triple_ret.
    eapply triple_bind; [apply Record_new_ok |]. intros record.
    eapply triple_bind; [apply add_record_ok |]. intros ?.
    eapply triple_bind; [apply triple_get |]. intros st0.
    destruct (data (contacts st0) !! nm) as [contact|] eqn:Hnm.
    - eapply triple_bind.
      + eapply triple_pre; [| apply (invoke_ok contact), add_phone_exn].
        intros st [-> Hok]. split; [done |]. exact (proj2 Hok nm contact Hnm).
      + intros ?. by apply triple_ret.
    - apply triple_raise. by intros st [_ Hok]. }
  destruct (Py.startswith _ "change ").
  { eapply triple_bind; [apply unpack2_ok |]. intros [? data'].
    destruct (negb _); [by apply triple_ret |].
    eapply triple_bind; [apply unpack2_ok |]. intros [nm phone].
    eapply triple_bind; [apply find_ok |]. intros [contact|].
    - eapply triple_bind.
      { eapply triple_pre; [| apply (deref_ok contact)].
        intros st [Hok Hl]. split; [done | by apply Hl]. }
      intros r. destruct (phones r) as [|p0 ?].
      + apply triple_raise. by intros st [Hok _].
      + eapply triple_bind; [apply invoke_ok, edit_phone_exn |].
        intros ?. by apply triple_ret.
    - apply triple_raise. by intros st [Hok _]. }
  destruct (Py.startswith _ "phone ").
  { eapply triple_bind; [apply unpack2_ok |]. intros [? nm].
    eapply triple_bind; [apply find_ok |]. intros [contact|].
    - eapply triple_bind.
      { eapply triple_pre; [| apply (deref_ok contact)].
        intros st [Hok Hl]. split; [done | by apply Hl]. }
      intros r. destruct (phones r) as [|p0 ?].
      + apply triple_raise. by intros st [Hok _].
      + apply triple_ret. by intros st [Hok _].
    - apply triple_raise. by intros st [Hok _]. }
  destruct (String.eqb _ "show all").
  { eapply triple_bind; [apply triple_get |]. intros st0.
    destruct (decide _).
    - apply triple_ret. by intros st [_ Hok].
    - eapply triple_pre; [| apply paginated_contacts_ok]. by intros st [_ Hok]. }
  destruct (Py.startswith _ "show page ").
  { eapply triple_bind; [apply unpack2_ok |]. intros [? page_str].
    apply show_page_ok. }
  destruct (_ || _).
  { eapply triple_bind; [apply print_ok |]. intros ?. by apply triple_raise. }
  destruct (_ || _); [by apply triple_ret |].
  destruct (String.eqb _ "phone"); [by apply triple_ret |].
  by apply triple_raise.
Qed.

Lemma run_turn_ok command :
  triple heap_ok (run_turn command) (fun _ => heap_ok) raised_ok.
Proof.
  intros st Hok. unfold run_turn.
  pose proof (parse_command_ok command st Hok) as Hparse.
  destruct (parse_command command st) as [[result | e] st'].
  - destruct result; [done |]. by apply print_ok.
  - destruct Hparse as [Hok' He]. destruct e; try done; by apply print_ok.
Qed.

(** The book holds allocated records only after any number of turns. *)
Lemma heap_ok_after commands : heap_ok (after commands).
Proof.
  unfold after. generalize heap_ok_init. generalize Assistant_init.
  induction commands as [|command commands IH]; intros st Hok; [done |].
  simpl. pose proof (run_turn_ok command st Hok) as Hturn.
  destruct (run_turn command st) as [[[] | e] st']; [by apply IH | by destruct Hturn].
Qed.

(** * Further properties

    The properties below cover the methods and the branches of the
    interpreter that the claims leave aside. *)

Local Open Scope list_scope.

(** ** Record: the phone list *)

Lemma Record_eta (r : Record_) : mkRecord (name r) (phones r) (birthday r) = r.
Proof. by destruct r. Qed.

Lemma Field_eta (p : Field) : mkField (value p) = p.
Proof. by destruct p. Qed.

Lemma has_phone_app phone ps qs :
  has_phone phone (ps ++ qs) <-> has_phone phone ps \/ has_phone phone qs.
Proof. unfold has_phone. apply Exists_app. Qed.

Lemma find_phone_cons phone p ps n b :
  find_phone phone (mkRecord n (p :: ps) b) =
    if String.eqb (value p) phone then Some p
    else find_phone phone (mkRecord n ps b).
Proof. reflexivity. Qed.

(** X2. [find_phone(phone)] returns the first phone of the list whose
    value is [phone], and [None] when no phone has that value; it never
    raises. *)
Theorem X2_find_phone_first_match (self : Record_) (phone : string) :
  match find_phone phone self with
  | Some q =>
      exists before after,
        phones self = before ++ q :: after /\ value q = phone /\
        ~ has_phone phone before
  | None => ~ has_phone phone (phones self)
  end.
Proof.
  destruct self as [n ps b]. simpl phones.
  induction ps as [|p ps IH]; [apply has_phone_nil |].
  rewrite find_phone_cons.
  destruct (String.eqb_spec (value p) phone) as [Heq | Hne].
  - exists [], ps. split; [done |]. split; [done | apply has_phone_nil].
  - destruct (find_phone phone (mkRecord n ps b)) as [q|].
    + destruct IH as (before & after & -> & Hq & Hbefore).
      exists (p :: before), after. split; [done |]. split; [done |].
      intros [? | ?]%has_phone_cons; contradiction.
    + intros [? | ?]%has_phone_cons; contradiction.
Qed.

Lemma find_phone_found (self : Record_) (phone : string) :
  has_phone phone (phones self) ->
  exists q, find_phone phone self = Some q /\ value q = phone.
Proof.
  intros Hin. unfold find_phone.
  destruct (List.find _ _) as [q|] eqn:Hfind.
  - apply find_some in Hfind as [_ Hq]. exists q. split; [done |].
    by apply String.eqb_eq.
  - apply Exists_exists in Hin as (q & Hq & Hvalue).
    apply list_elem_of_In in Hq.
    pose proof (find_none _ _ Hfind q Hq) as Hno. simpl in Hno.
    rewrite Hvalue, String.eqb_refl in Hno. discriminate.
Qed.

Lemma add_phone_valid (self : Record_) (phone : string) :
  ten_digits phone ->
  add_phone phone self
    = (Return tt, mkRecord (name self) (phones self ++ [mkField phone]) (birthday self)).
Proof.
  intros Hphone%is_valid_phone_spec. unfold add_phone, Phone_init. by rewrite Hphone.
Qed.

Lemma add_phone_invalid (self : Record_) (phone : string) :
  ~ ten_digits phone -> add_phone phone self = (Raise InvalidFormat_phone, self).
Proof.
  intros Hphone%is_valid_phone_false. unfold add_phone, Phone_init. by rewrite Hphone.
Qed.

(** X1. [add_phone] with a well-formed phone appends it to the phone
    list, whether or not the list holds it already, and leaves name and
    birthday alone; [find_phone] then finds a phone of that value. *)
Theorem X1_add_phone_then_find_phone (self : Record_) (phone : string) :
  ten_digits phone ->
  exists self',
    add_phone phone self = (Return tt, self') /\
    name self' = name self /\ birthday self' = birthday self /\
    phones self' = phones self ++ [mkField phone] /\
    exists q, find_phone phone self' = Some q /\ value q = phone.
Proof.
  intros Hphone. rewrite (add_phone_valid _ _ Hphone).
  eexists; split; [done |]. do 3 (split; [done |]).
  apply find_phone_found. simpl.
  apply has_phone_app. right. apply has_phone_cons. by left.
Qed.

Lemma X1_add_phone_then_find_phone_witness :
  ten_digits "1234567890" /\
  exists self',
    add_phone "1234567890" (mkRecord (mkField "john") [mkField "1234567890"] None)
      = (Return tt, self') /\
    phones self' = [mkField "1234567890"; mkField "1234567890"].
Proof.
  assert (ten_digits "1234567890") as Hten by (by apply is_valid_phone_spec).
  split; [exact Hten |].
  destruct (X1_add_phone_then_find_phone
              (mkRecord (mkField "john") [mkField "1234567890"] None)
              "1234567890" Hten) as (self' & Hadd & _ & _ & Hphones & _).
  exists self'. split; [exact Hadd | exact Hphones].
Defined.

Lemma remove_first_absent phone ps :
  ~ has_phone phone ps -> remove_first phone ps = ps.
Proof.
  induction ps as [|p ps IH]; [done |]. intros Hno. simpl.
  destruct (String.eqb_spec (value p) phone) as [Heq | Hne].
  - destruct Hno. apply has_phone_cons. by left.
  - rewrite IH; [done |]. intros Hin. apply Hno, has_phone_cons. by right.
Qed.

Lemma remove_first_first phone before after :
  ~ has_phone phone before ->
  remove_first phone (before ++ mkField phone :: after) = before ++ after.
Proof.
  induction before as [|p before IH]; intros Hno; simpl.
  - by rewrite String.eqb_refl.
  - destruct (String.eqb_spec (value p) phone) as [Heq | Hne].
    + destruct Hno. apply has_phone_cons. by left.
    + rewrite IH; [done |]. intros Hin. apply Hno, has_phone_cons. by right.
Qed.

Lemma has_phone_split phone ps :
  has_phone phone ps ->
  exists before after,
    ps = before ++ mkField phone :: after /\ ~ has_phone phone before.
Proof.
  induction ps as [|p ps IH]; [by intros ?%has_phone_nil |].
  intros Hin. destruct (decide (value p = phone)) as [Heq | Hne].
  - exists [], ps. split; [| apply has_phone_nil].
    simpl. by rewrite <- Heq, Field_eta.
  - apply has_phone_cons in Hin as [? | Hin]; [done |].
    destruct (IH Hin) as (before & after & -> & Hbefore).
    exists (p :: before), after. split; [done |].
    intros [? | ?]%has_phone_cons; contradiction.
Qed.

(** X3. [remove_phone(phone)] never raises and touches the phone list
    only: it takes out the first phone whose value is [phone] and keeps
    every other phone, later ones of the same value included, in place;
    when no phone has that value the record stays as it is. *)
Theorem X3_remove_phone_first_occurrence (self : Record_) (phone : string) :
  exists self',
    remove_phone phone self = (Return tt, self') /\
    name self' = name self /\ birthday self' = birthday self /\
    (~ has_phone phone (phones self) <-> self' = self) /\
    (forall before after,
       phones self = before ++ mkField phone :: after ->
       ~ has_phone phone before ->
       phones self' = before ++ after).
Proof.
  eexists; split; [reflexivity |]. simpl. do 2 (split; [done |]). split.
  - split.
    + intros Hno. rewrite (remove_first_absent _ _ Hno). apply Record_eta.
    + intros Heq Hin.
      destruct (has_phone_split _ _ Hin) as (before & after & Hps & Hbefore).
      apply (f_equal phones) in Heq. simpl in Heq.
      rewrite Hps, (remove_first_first _ _ _ Hbefore) in Heq.
      apply (f_equal length) in Heq. rewrite !length_app in Heq. simpl in Heq.
      unfold Phone in *. lia.
  - intros before after -> Hbefore. by apply remove_first_first.
Qed.

(** X4. Adding a well-formed phone that the record does not hold and
    removing it again gives the record back. *)
Theorem X4_add_then_remove_phone (self : Record_) (phone : string) :
  ten_digits phone ->
  ~ has_phone phone (phones self) ->
  exists self',
    add_phone phone self = (Return tt, self') /\
    remove_phone phone self' = (Return tt, self).
Proof.
  intros Hphone Hno. rewrite (add_phone_valid _ _ Hphone).
  eexists; split; [done |]. unfold remove_phone, modify. simpl.
  rewrite (remove_first_first _ _ [] Hno), app_nil_r. by rewrite Record_eta.
Qed.

Lemma X4_add_then_remove_phone_witness :
  ten_digits "1234567890" /\
  ~ has_phone "1234567890" (phones (mkRecord (mkField "john") [mkField "0987654321"] None)) /\
  exists self',
    add_phone "1234567890" (mkRecord (mkField "john") [mkField "0987654321"] None)
      = (Return tt, self') /\
    remove_phone "1234567890" self'
      = (Return tt, mkRecord (mkField "john") [mkField "0987654321"] None).
Proof.
  assert (ten_digits "1234567890") as Hten by (by apply is_valid_phone_spec).
  assert (~ has_phone "1234567890"
            (phones (mkRecord (mkField "john") [mkField "0987654321"] None))) as Hno.
  { intros [Heq | Hin%has_phone_nil]%has_phone_cons; [discriminate Heq | done]. }
  split; [exact Hten |]. split; [exact Hno |].
  exact (X4_add_then_remove_phone _ _ Hten Hno).
Defined.

Lemma edit_phone_eq (self : Record_) (old_phone new_phone : string) :
  edit_phone old_phone new_phone self =
    if decide (has_phone old_phone (phones self)) then
      if decide (ten_digits new_phone)
      then (Return tt, mkRecord (name self)
                         (replace_first old_phone new_phone (phones self))
                         (birthday self))
      else (Raise InvalidFormat_phone, self)
    else (Raise NotFound_phone, self).
Proof.
  unfold edit_phone. rewrite edit_phone_loop_spec.
  destruct self as [n ps b]; simpl.
  repeat case_decide; done.
Qed.

Lemma remove_first_Forall (P : Phone -> Prop) phone ps :
  Forall P ps -> Forall P (remove_first phone ps).
Proof.
  induction 1 as [|p ps Hp Hps IH]; [done |]. simpl.
  destruct (String.eqb _ _); [done | by constructor].
Qed.

Lemma replace_first_Forall (P : Phone -> Prop) old_phone new_phone ps :
  P (mkField new_phone) -> Forall P ps ->
  Forall P (replace_first old_phone new_phone ps).
Proof.
  intros Hnew. induction 1 as [|p ps Hp Hps IH]; [done |]. simpl.
  destruct (String.eqb _ _); by constructor.
Qed.

(** X5. A record whose phones are all well-formed keeps that property
    under [add_phone], [remove_phone] and [edit_phone], with any
    arguments and whether the call returns or raises. *)
Theorem X5_phones_stay_valid (self : Record_) (phone old_phone new_phone : string) :
  phones_valid self ->
  phones_valid (snd (add_phone phone self)) /\
  phones_valid (snd (remove_phone phone self)) /\
  phones_valid (snd (edit_phone old_phone new_phone self)).
Proof.
  unfold phones_valid. intros Hvalid. split; [| split].
  - destruct (decide (ten_digits phone)) as [Hphone | Hphone].
    + rewrite (add_phone_valid _ _ Hphone). simpl.
      apply Forall_app. split; [done |]. constructor; [exact Hphone | constructor].
    + by rewrite (add_phone_invalid _ _ Hphone).
  - simpl. by apply remove_first_Forall.
  - rewrite edit_phone_eq. repeat case_decide; try done.
    simpl. by apply replace_first_Forall.
Qed.

Lemma X5_phones_stay_valid_witness :
  phones_valid (mkRecord (mkField "john") [mkField "1234567890"] None) /\
  phones_valid (snd (add_phone "12" (mkRecord (mkField "john") [mkField "1234567890"] None))) /\
  phones_valid (snd (edit_phone "1234567890" "0987654321"
                       (mkRecord (mkField "john") [mkField "1234567890"] None))).
Proof.
  assert (phones_valid (mkRecord (mkField "john") [mkField "1234567890"] None)) as Hvalid.
  { constructor; [by apply is_valid_phone_spec | constructor]. }
  split; [exact Hvalid |].
  destruct (X5_phones_stay_valid _ "12" "1234567890" "0987654321" Hvalid)
    as (Hadd & _ & Hedit).
  split; [exact Hadd | exact Hedit].
Defined.

Lemma replace_first_has old_phone new_phone ps :
  has_phone old_phone ps -> has_phone new_phone (replace_first old_phone new_phone ps).
Proof.
  induction ps as [|p ps IH]; [by intros ?%has_phone_nil |]. simpl.
  destruct (String.eqb_spec (value p) old_phone) as [Heq | Hne].
  - intros _. apply has_phone_cons. by left.
  - intros [? | Hin]%has_phone_cons; [done |]. apply has_phone_cons. right. by apply IH.
Qed.

Lemma replace_first_back old_phone new_phone ps :
  has_phone old_phone ps -> ~ has_phone new_phone ps ->
  replace_first new_phone old_phone (replace_first old_phone new_phone ps) = ps.
Proof.
  induction ps as [|p ps IH]; [done |]. intros Hold Hnew. simpl.
  destruct (String.eqb_spec (value p) old_phone) as [Heq | Hne].
  - simpl. rewrite String.eqb_refl. by rewrite <- Heq, Field_eta.
  - simpl. destruct (String.eqb_spec (value p) new_phone) as [Heq' | Hne'].
    + destruct Hnew. apply has_phone_cons. by left.
    + f_equal. apply IH.
      * by apply has_phone_cons in Hold as [? | ?].
      * intros Hin. apply Hnew, has_phone_cons. by right.
Qed.

(** X6. Replacing a phone by a well-formed one that the record does not
    hold, and then replacing that one by the first again, gives the
    record back. *)
Theorem X6_edit_phone_there_and_back (self : Record_) (old_phone new_phone : string) :
  has_phone old_phone (phones self) ->
  ~ has_phone new_phone (phones self) ->
  ten_digits old_phone -> ten_digits new_phone ->
  exists self',
    edit_phone old_phone new_phone self = (Return tt, self') /\
    edit_phone new_phone old_phone self' = (Return tt, self).
Proof.
  intros Hold Hnew Hten_old Hten_new. rewrite edit_phone_eq.
  rewrite decide_True by done. rewrite (decide_True (P := ten_digits new_phone)) by done.
  eexists; split; [done |]. rewrite edit_phone_eq. simpl.
  rewrite decide_True by (by apply replace_first_has).
  rewrite (decide_True (P := ten_digits old_phone)) by done.
  rewrite replace_first_back by done. by rewrite Record_eta.
Qed.

Lemma X6_edit_phone_there_and_back_witness :
  exists self',
    edit_phone "1234567890" "0987654321"
      (mkRecord (mkField "john") [mkField "1111111111"; mkField "1234567890"] None)
      = (Return tt, self') /\
    edit_phone "0987654321" "1234567890" self'
      = (Return tt, mkRecord (mkField "john")
                      [mkField "1111111111"; mkField "1234567890"] None).
Proof.
  apply (X6_edit_phone_there_and_back
           (mkRecord (mkField "john") [mkField "1111111111"; mkField "1234567890"] None)).
  - apply has_phone_cons. right. apply has_phone_cons. by left.
  - intros [Heq | [Heq | Hin%has_phone_nil]%has_phone_cons]%has_phone_cons;
      [discriminate Heq | discriminate Heq | done].
  - by apply is_valid_phone_spec.
  - by apply is_valid_phone_spec.
Defined.

(** ** Record.days_to_birthday *)

(** X7. [days_to_birthday] returns [None] for a record without birthday
    and raises [AttributeError] at [self.birthday.month] for every record
    with one, whatever the birthday and the current date are: it never
    returns a number of days. *)
Theorem X7_days_to_birthday_never_counts (today : date) (self : Record_) :
  (birthday self = None <-> days_to_birthday today self = Returns None) /\
  (is_Some (birthday self) <->
   days_to_birthday today self
     = Raises (AttributeError "'Birthday' object has no attribute 'month'")) /\
  (forall days : Z, days_to_birthday today self <> Returns (Some days)).
Proof.
  unfold days_to_birthday. destruct today as [[y m] d].
  destruct (birthday self) as [b|]; simpl; repeat split; done.
Qed.

(** ** AddressBook: iteration *)

Section Iteration.

Context {B : Type} (g : loc -> B).

(** A loop whose body appends one item per record and leaves the book
    alone runs from any position to the end of the sequence. *)
Lemma for_next_collects (fuel : nat) (vs : list loc) (acc : list B) (i : nat) :
  i <= length vs -> length vs - i < fuel ->
  for_next fuel vs
    (fun record acc' index' => Some (Returns (acc' ++ [g record]), index'))
    acc (Some i)
  = Some (Returns (acc ++ map g (drop i vs)), Some (length vs)).
Proof.
  revert acc i. induction fuel as [|fuel IH]; intros acc i Hi Hfuel; [lia |].
  simpl. destruct (vs !! i) as [record|] eqn:Hrecord.
  - pose proof (lookup_lt_Some _ _ _ Hrecord) as Hlt.
    rewrite IH by lia. rewrite (drop_S _ _ _ Hrecord). simpl.
    by rewrite <- app_assoc.
  - apply lookup_ge_None in Hrecord.
    rewrite drop_ge by done. simpl. rewrite app_nil_r.
    by replace i with (length vs) by lia.
Qed.

End Iteration.

(** X8. A traversal of the book, whatever a traversal before it left
    behind, yields the records of the ordered sequence in their order,
    each once, and ends; afterwards [next] raises [StopIteration] again
    and again. On a book that was never iterated [next] raises
    [AttributeError]. *)
Theorem X8_iteration_yields_the_sequence (fuel : nat) (vs : list loc) (index : option nat) :
  length vs < fuel ->
  list_of_book fuel vs index = Some (Returns vs, Some (length vs)) /\
  AddressBook_next vs (Some (length vs)) = (Raises StopIteration, Some (length vs)) /\
  AddressBook_next vs None
    = (Raises (AttributeError "'AddressBook' object has no attribute '_index'"), None).
Proof.
  intros Hfuel. split; [| split; [| done]].
  - unfold list_of_book, for_in, AddressBook_iter, put.
    rewrite (for_next_collects (fun record => record)) by lia.
    by rewrite drop_0, map_id.
  - unfold AddressBook_next. by rewrite (proj2 (lookup_ge_None vs (length vs))).
Qed.

Lemma X8_iteration_yields_the_sequence_witness :
  list_of_book 7 (_values (contacts six_contacts)) None
    = Some (Returns [0; 1; 2; 3; 4; 5], Some 6).
Proof.
  apply (X8_iteration_yields_the_sequence 7 (_values (contacts six_contacts)) None).
  vm_compute. lia.
Defined.

(** X9. The book is its own iterator, so a loop over the book inside a
    loop over the same book moves the position of the outer one: the
    nested comprehension pairs the first record only with every record,
    and the outer loop ends after its first round. *)
Theorem X9_nested_iteration_shares_the_position
    (fuel : nat) (vs : list loc) (index : option nat) :
  length vs < fuel ->
  pairs_of_book fuel vs index
    = Some (Returns (match vs with
                     | [] => []
                     | first :: _ => map (fun b => (first, b)) vs
                     end),
            Some (length vs)).
Proof.
  intros Hfuel. unfold pairs_of_book, for_in at 1, AddressBook_iter, put.
  destruct fuel as [|fuel]; [lia |]. destruct vs as [|first vs]; [done |].
  simpl in Hfuel. cbn [for_next AddressBook_next lookup list_lookup].
  unfold for_in, AddressBook_iter, put.
  rewrite (for_next_collects (fun b => (first, b))) by (simpl; lia).
  rewrite drop_0, app_nil_l.
  destruct fuel as [|fuel]; [lia |].
  cbn [for_next AddressBook_next].
  by rewrite (proj2 (lookup_ge_None (first :: vs) (length (first :: vs)))).
Qed.

Lemma X9_nested_iteration_shares_the_position_witness :
  pairs_of_book 4 [0; 1; 2] None
    = Some (Returns [(0, 0); (0, 1); (0, 2)], Some 3).
Proof.
  apply (X9_nested_iteration_shares_the_position 4 [0; 1; 2] None). simpl. lia.
Defined.

(** ** AddressBook: the two views under add_record and delete *)

Lemma filter_all {A} (P : A -> Prop) `{!forall x, Decision (P x)} (l : list A) :
  Forall P l -> filter P l = l.
Proof.
  induction 1 as [|x l Hx _ IH]; [done |].
  by rewrite filter_cons, decide_True, IH.
Qed.

Lemma State_eta (st : State) :
  mkState (heap st) (mkBook (data (contacts st)) (_values (contacts st))) (stdout st) = st.
Proof. by destruct st as [h [d vs] out]. Qed.

Lemma linked_allocated st :
  linked st -> Forall (fun l => is_Some (heap st !! l)) (_values (contacts st)).
Proof.
  intros [_ Hentries]. apply Forall_forall. intros l Hl.
  destruct (Hentries l Hl) as (k & Hk & _). unfold name_at in Hk.
  destruct (heap st !! l); [by eexists | done].
Qed.

Lemma linked_no_entry st nm :
  linked st -> data (contacts st) !! nm = None ->
  Forall (fun l => name_at st l <> Some nm) (_values (contacts st)).
Proof.
  intros [_ Hentries] Hnm. apply Forall_forall. intros l Hl.
  destruct (Hentries l Hl) as (k & -> & [l' Hk]). intros [= ->]. congruence.
Qed.

Lemma occurrences_filter st nm :
  occurrences st nm
  = length (filter (fun l => name_at st l = Some nm) (_values (contacts st))).
Proof.
  unfold occurrences, entry_names.
  induction (_values (contacts st)) as [|l ls IH]; [done |].
  simpl. rewrite !filter_cons. destruct (decide _); simpl; by rewrite IH.
Qed.

(** X10. On a book whose two views are linked, [add_record] of a record
    whose name is no key yet, followed by [delete] of that name, leaves
    the whole state as it was. *)
Theorem X10_add_record_then_delete (st : State) (record : loc) (r : Record_) :
  linked st ->
  heap st !! record = Some r ->
  data (contacts st) !! value (name r) = None ->
  (let* _ := add_record record in delete (value (name r))) st = (Return tt, st).
Proof.
  intros Hlinked Hr Hfresh. unfold bind. rewrite (add_record_eq _ _ _ Hr).
  rewrite delete_eq; simpl.
  2:{ apply Forall_app. split; [by apply linked_allocated |].
      constructor; [by eexists | constructor]. }
  rewrite lookup_insert_eq, delete_insert_id by done.
  rewrite filter_app, filter_cons, filter_nil.
  rewrite (filter_all _ _ (linked_no_entry _ _ Hlinked Hfresh)).
  rewrite decide_False, app_nil_r.
  - by rewrite State_eta.
  - intros Hne. apply Hne. unfold name_at. simpl. by rewrite Hr.
Qed.

Lemma X10_add_record_then_delete_witness :
  linked (mkState (heap john_once) AddressBook_init []) /\
  (let* _ := add_record 0 in delete "john")
    (mkState (heap john_once) AddressBook_init [])
  = (Return tt, mkState (heap john_once) AddressBook_init []).
Proof.
  assert (linked (mkState (heap john_once) AddressBook_init [])) as Hlinked.
  { split; [intros k l Hk; simpl in Hk; by rewrite lookup_empty in Hk |].
    intros l Hl. simpl in Hl. by apply elem_of_nil in Hl. }
  split; [exact Hlinked |].
  exact (X10_add_record_then_delete (mkState (heap john_once) AddressBook_init [])
           0 (mkRecord (mkField "john") [] None) Hlinked eq_refl eq_refl).
Defined.

Lemma linked_init : linked Assistant_init.
Proof.
  split; [intros k l Hk; simpl in Hk; by rewrite lookup_empty in Hk |].
  intros l Hl. simpl in Hl. by apply elem_of_nil in Hl.
Qed.

Lemma linked_heap_contacts st st' :
  heap st' = heap st -> contacts st' = contacts st -> linked st -> linked st'.
Proof.
  intros Hheap Hcontacts. unfold linked, name_at. by rewrite Hheap, Hcontacts.
Qed.

Lemma add_record_linked st record r :
  linked st -> heap st !! record = Some r -> linked (snd (add_record record st)).
Proof.
  intros [Hkeys Hentries] Hr. rewrite (add_record_eq _ _ _ Hr).
  unfold linked, name_at in *. simpl. split.
  - intros k l [[<- <-] | [Hne Hk]]%lookup_insert_Some.
    + rewrite Hr. split; [done |]. apply elem_of_app. right. by left.
    + destruct (Hkeys k l Hk) as [Hname Hl]. split; [done |].
      apply elem_of_app. by left.
  - intros l [Hl | ->%list_elem_of_singleton]%elem_of_app.
    + destruct (Hentries l Hl) as (k & Hname & Hk). exists k. split; [done |].
      destruct (decide (value (name r) = k)) as [<- | Hne].
      * rewrite lookup_insert_eq. by eexists.
      * by rewrite lookup_insert_ne.
    + exists (value (name r)). rewrite Hr, lookup_insert_eq. split; [done | by eexists].
Qed.

Lemma delete_linked st nm : linked st -> linked (snd (delete nm st)).
Proof.
  intros Hlinked. rewrite delete_eq by (by apply linked_allocated). simpl.
  destruct (data (contacts st) !! nm) as [l0|] eqn:Hnm; [| done].
  destruct Hlinked as [Hkeys Hentries]. unfold linked, name_at in *. simpl. split.
  - intros k l [Hne Hk]%lookup_delete_Some.
    destruct (Hkeys k l Hk) as [Hname Hl]. split; [done |].
    apply list_elem_of_filter. split; [| done]. rewrite Hname. congruence.
  - intros l [Hname Hl]%list_elem_of_filter.
    destruct (Hentries l Hl) as (k & Hk & Hkey). exists k. split; [done |].
    rewrite lookup_delete_ne; [done |]. intros <-. by apply Hname.
Qed.

(** X11. [add_record] and [delete] keep the two views of the book
    linked, [add_record] with a name that is already a key included:
    every key names the record it maps to, that record is an entry of the
    ordered sequence, and the name of every entry is a key. *)
Theorem X11_views_stay_linked (st : State) :
  linked st ->
  (forall record r, heap st !! record = Some r -> linked (snd (add_record record st))) /\
  (forall nm, linked (snd (delete nm st))).
Proof.
  intros Hlinked. split.
  - intros record r Hr. by apply (add_record_linked _ _ r).
  - intros nm. by apply delete_linked.
Qed.

Lemma X11_views_stay_linked_witness :
  linked (mkState (heap john_once) AddressBook_init []) /\
  linked john_once /\
  linked (snd (delete "john" (mkState (heap john_once) AddressBook_init []))).
Proof.
  assert (linked (mkState (heap john_once) AddressBook_init [])) as Hlinked.
  { split; [intros k l Hk; simpl in Hk; by rewrite lookup_empty in Hk |].
    intros l Hl. simpl in Hl. by apply elem_of_nil in Hl. }
  destruct (X11_views_stay_linked _ Hlinked) as [Hadd Hdelete].
  split; [exact Hlinked |]. split; [| exact (Hdelete "john")].
  exact (Hadd 0 (mkRecord (mkField "john") [] None) eq_refl).
Defined.

(** X12. [delete(name)] on a linked book returns normally and takes every
    entry named [name] out of the ordered sequence, a doubled one
    included; the heap, the other keys, the other entries and their order
    are as before. *)
Theorem X12_delete_takes_out_every_entry (st : State) (nm : string) :
  linked st ->
  exists st',
    delete nm st = (Return tt, st') /\
    heap st' = heap st /\
    occurrences st' nm = 0 /\
    _values (contacts st')
      = filter (fun l => name_at st l <> Some nm) (_values (contacts st)) /\
    (forall k, k <> nm ->
       data (contacts st') !! k = data (contacts st) !! k /\
       occurrences st' k = occurrences st k).
Proof.
  intros Hlinked. rewrite delete_eq by (by apply linked_allocated).
  eexists; split; [done |].
  destruct (data (contacts st) !! nm) as [l0|] eqn:Hnm; simpl.
  - split; [done |]. split; [| split; [done |]].
    + rewrite occurrences_filter. simpl.
      rewrite list_filter_filter. apply length_zero_iff_nil.
      induction (_values (contacts st)) as [|l ls IH]; [done |].
      rewrite filter_cons, decide_False; [done |]. unfold name_at. simpl. tauto.
    + intros k Hne. rewrite lookup_delete_ne by done. split; [done |].
      unfold occurrences, entry_names. simpl. f_equal.
      by apply (filter_other_name (name_at st)).
  - pose proof (linked_no_entry _ _ Hlinked Hnm) as Hno.
    split; [done |]. split; [| split].
    + rewrite occurrences_filter. apply length_zero_iff_nil.
      induction Hno as [|l ls Hl _ IH]; [done |].
      by rewrite filter_cons, decide_False.
    + by rewrite (filter_all _ _ Hno).
    + done.
Qed.

Lemma X12_delete_takes_out_every_entry_witness :
  linked john_twice /\
  exists st',
    delete "john" john_twice = (Return tt, st') /\
    _values (contacts st') = [] /\ occurrences st' "john" = 0.
Proof.
  assert (linked john_twice) as Hlinked.
  { split.
    - intros k l Hk.
      change (data (contacts john_twice)) with (<["john" := 1]> (<["john" := 0]> (∅ : gmap string loc))) in Hk.
      rewrite insert_insert_eq in Hk.
      apply lookup_insert_Some in Hk as [[<- <-] | [_ Hk]];
        [| by rewrite lookup_empty in Hk].
      split; [done |]. right. by left.
    - intros l Hl. change (_values (contacts john_twice)) with [0; 1] in Hl.
      exists "john". split; [| by eexists].
      apply elem_of_cons in Hl as [-> | Hl]; [done |].
      by apply list_elem_of_singleton in Hl as ->. }
  split; [exact Hlinked |].
  destruct (X12_delete_takes_out_every_entry john_twice "john" Hlinked)
    as (st' & Hdelete & _ & Hocc & Hvalues & _).
  exists st'. split; [exact Hdelete |]. split; [| exact Hocc].
  rewrite Hvalues. reflexivity.
Defined.

(** X14. [delete] keeps a consistent book consistent, and so does
    [add_record] of a record whose name is no key yet. *)
Theorem X14_consistency_kept (st : State) :
  consistent st ->
  (forall nm, consistent (snd (delete nm st))) /\
  (forall record r,
     heap st !! record = Some r ->
     data (contacts st) !! value (name r) = None ->
     consistent (snd (add_record record st))).
Proof.
  intros Hcons. split.
  - intros nm. by apply delete_consistent.
  - intros record r Hr Hfresh. by apply (add_record_fresh_consistent _ _ r).
Qed.

Lemma X14_consistency_kept_witness :
  let ann := mkRecord (mkField "ann") [] None in
  let bob := mkRecord (mkField "bob") [] None in
  let st0 := mkState [ann; bob] AddressBook_init [] in
  let st1 := snd (add_record 0 st0) in
  let st2 := snd (add_record 1 st1) in
  _values (contacts st2) = [0; 1] /\
  consistent st2 /\
  _values (contacts (snd (delete "ann" st2))) = [1] /\
  consistent (snd (delete "ann" st2)).
Proof.
  intros ann bob st0 st1 st2.
  assert (consistent st0) as H0.
  { split.
    - intros nm [l Hl]. simpl in Hl. by rewrite lookup_empty in Hl.
    - intros l Hl. simpl in Hl. by apply elem_of_nil in Hl. }
  pose proof (proj2 (X14_consistency_kept st0 H0) 0 ann eq_refl eq_refl) as H1.
  pose proof (proj2 (X14_consistency_kept st1 H1) 1 bob eq_refl eq_refl) as H2.
  split; [reflexivity |]. split; [exact H2 |]. split; [reflexivity |].
  exact (proj1 (X14_consistency_kept st2 H2) "ann").
Defined.

(** ** AddressBook.paginated_list without validation *)

Lemma slice_length_bound {A} (l : list A) (start size : Z) :
  (0 <= size)%Z -> length (Py.slice l start (start + size)) <= Z.to_nat size.
Proof.
  intros Hsize. unfold Py.slice, Py.slice_index.
  rewrite length_take. etrans; [apply Nat.le_min_l |].
  destruct (Z.ltb_spec start 0), (Z.ltb_spec (start + size) 0); lia.
Qed.

(** X13. [paginated_list] checks neither argument. For a page size that
    is not negative and any page number, also zero or negative, it
    returns a run of consecutive records of the ordered sequence that is
    no longer than the page size; page 0 is always empty. *)
Theorem X13_page_never_exceeds_page_size (st : State) (page page_size : Z) :
  (0 <= page_size)%Z ->
  exists records,
    paginated_list page page_size st = (Return records, st) /\
    length records <= Z.to_nat page_size /\
    (exists before rest, _values (contacts st) = before ++ records ++ rest) /\
    (page = 0%Z -> records = []).
Proof.
  intros Hsize. unfold paginated_list, bind, get, ret.
  eexists; split; [done |]. split; [by apply slice_length_bound |]. split.
  - unfold Py.slice. eexists (take _ _), (drop _ (drop _ _)).
    by rewrite !take_drop.
  - intros ->. unfold Py.slice, Py.slice_index.
    replace ((0 - 1) * page_size + page_size)%Z with 0%Z by lia.
    replace (Z.to_nat _) with 0; [done |].
    destruct (Z.ltb_spec ((0 - 1) * page_size) 0); simpl; lia.
Qed.

Lemma X13_page_never_exceeds_page_size_witness :
  (0 <= 5)%Z /\
  exists records,
    paginated_list (-1) 5 six_contacts = (Return records, six_contacts) /\
    length records <= 5 /\
    exists before rest, _values (contacts six_contacts) = before ++ records ++ rest.
Proof.
  split; [lia |].
  destruct (X13_page_never_exceeds_page_size six_contacts (-1) 5 ltac:(lia))
    as (records & Hpage & Hlen & Hrun & _).
  exists records. split; [exact Hpage |]. split; [exact Hlen | exact Hrun].
Defined.

(** ** Assistant: the branches of parse_command *)

Lemma prefix_split (p s : string) :
  String.prefix p s = true -> exists t, s = p +:+ t.
Proof.
  revert s. induction p as [|c p IH]; intros s Hp.
  - by exists s.
  - destruct s as [|c' s]; [done |]. simpl in Hp.
    destruct (ascii_dec c c') as [<- | Hne]; [| done].
    destruct (IH s Hp) as [t ->]. by exists t.
Qed.

Lemma chr_lower_idem c : Py.chr_lower (Py.chr_lower c) = Py.chr_lower c.
Proof. destruct c as [[] [] [] [] [] [] [] []]; reflexivity. Qed.

Lemma lower_idem s : Py.lower (Py.lower s) = Py.lower s.
Proof. induction s as [|c s IH]; [done |]. simpl. by rewrite chr_lower_idem, IH. Qed.

Lemma lower_suffix p t : Py.lower (p +:+ t) = p +:+ t -> Py.lower t = t.
Proof.
  induction p as [|c p IH]; [done |].
  rewrite append_cons. simpl. intros [= _ Ht]. by apply IH.
Qed.

Lemma word_of_snoc Q w c :
  Forall (fun c => Py.chr_isspace c = false /\ Q c) (list_ascii_of_string w) ->
  Py.chr_isspace c = false -> Q c ->
  word_of Q (w +:+ String c EmptyString).
Proof.
  intros Hw Hc HQ. split; [apply append_nonempty |].
  induction w as [|c' w IH].
  - by repeat constructor.
  - rewrite append_cons. simpl. inversion Hw; subst. constructor; [done | by apply IH].
Qed.

Lemma split_ws_aux_words Q cur s :
  (forall w, cur = Some w -> word_of Q w) ->
  Forall Q (list_ascii_of_string s) ->
  Forall (word_of Q) (Py.split_ws_aux cur s).
Proof.
  revert cur. induction s as [|c s IH]; intros cur Hcur Hs; simpl.
  - destruct cur; [| done]. constructor; [by apply Hcur | done].
  - simpl in Hs. inversion Hs as [|? ? Hc Hs']; subst.
    destruct (Py.chr_isspace c) eqn:Hspace, cur as [w|].
    + constructor; [by apply Hcur |]. by apply IH.
    + by apply IH.
    + apply IH; [| done]. intros ? [= <-].
      apply word_of_snoc; [by apply (Hcur w) | done | done].
    + apply IH; [| done]. intros ? [= <-].
      apply (word_of_snoc Q EmptyString); [constructor | done | done].
Qed.

Lemma word_of_token Q w : word_of Q w -> token w.
Proof.
  intros [Hne Hw]. split; [done |]. clear Hne.
  induction w as [|c w IH]; [done |]. simpl in *.
  inversion Hw as [|? ? [Hc _] Hw']; subst. rewrite Hc. by apply IH.
Qed.

Lemma word_of_lower w : word_of (fun c => Py.chr_lower c = c) w -> Py.lower w = w.
Proof.
  intros [_ Hw]. induction w as [|c w IH]; [done |]. simpl in *.
  inversion Hw as [|? ? [_ Hc] Hw']; subst. by rewrite Hc, IH.
Qed.

Lemma lower_chars s :
  Py.lower s = s -> Forall (fun c => Py.chr_lower c = c) (list_ascii_of_string s).
Proof.
  induction s as [|c s IH]; [constructor |]. simpl. intros [= Hc Hs].
  constructor; [done | by apply IH].
Qed.

(** The words of a lower-case string are lower-case tokens. *)
Lemma split_ws_lower_tokens s :
  Py.lower s = s ->
  Forall (fun w => token w /\ Py.lower w = w) (Py.split_ws s).
Proof.
  intros Hs. eapply Forall_impl.
  - apply (split_ws_aux_words (fun c => Py.chr_lower c = c)); [done |].
    by apply lower_chars.
  - intros w Hw. split; [by eapply word_of_token | by apply word_of_lower].
Qed.

Lemma command_args command word data' :
  Py.lower command = word +:+ data' -> Py.lower data' = data'.
Proof.
  intros Hlower. apply (lower_suffix word). by rewrite <- Hlower, lower_idem.
Qed.

(** The book after an [add] line with three tokens. *)
Lemma parse_add_three st command data' nm phone bd :
  Py.lower command = "add " +:+ data' ->
  Py.split_ws data' = [nm; phone; bd] ->
  parse_command command st =
    let record := length (heap st) in
    let book := mkBook (<[nm := record]> (data (contacts st)))
                  (_values (contacts st) ++ [record]) in
    if decide (ten_digits phone)
    then (Return ("Added contact: " +:+ nm +:+ ", " +:+ phone +:+ ", Birthday: " +:+ bd),
          mkState (heap st ++ [mkRecord (mkField nm) [mkField phone] (Some (mkField bd))])
            book (stdout st))
    else (Raise InvalidFormat_phone,
          mkState (heap st ++ [mkRecord (mkField nm) [] (Some (mkField bd))])
            book (stdout st)).
Proof.
  intros Hlower Hsplit.
  assert (bd <> EmptyString) as Hbd.
  { pose proof (split_ws_nonempty data') as Hne. rewrite Hsplit in Hne.
    rewrite !Forall_cons in Hne. by destruct Hne as (_ & _ & Hne & _). }
  unfold parse_command. rewrite Hlower. cbv [String.append]. cbn.
  rewrite prefix_nil, split_sep_0. cbn. rewrite Hsplit.
  unfold bind at 1. rewrite Record_new_nonempty by done.
  unfold bind at 1, add_record, bind at 1, deref. simpl.
  rewrite lookup_app_r, Nat.sub_diag by done. simpl.
  unfold bind, modify_contacts, modify, get, ret. simpl.
  rewrite lookup_insert_eq. unfold invoke. simpl.
  rewrite lookup_app_r, Nat.sub_diag by done. simpl.
  unfold add_phone, Phone_init.
  destruct (decide (ten_digits phone)) as [Hphone | Hphone].
  - rewrite (proj2 (is_valid_phone_spec phone) Hphone). simpl.
    by rewrite insert_app_r_alt, Nat.sub_diag by done.
  - rewrite (proj2 (is_valid_phone_false phone) Hphone). simpl.
    by rewrite insert_app_r_alt, Nat.sub_diag by done.
Qed.

Lemma parse_add_other st command data' :
  Py.lower command = "add " +:+ data' ->
  length (Py.split_ws data') <> 3 ->
  parse_command command st
    = (Return "Give me name, phone, and birthday (if applicable)", st).
Proof.
  intros Hlower Hcount.
  unfold parse_command. rewrite Hlower. cbv [String.append]. cbn.
  rewrite prefix_nil, split_sep_0. cbn.
  by destruct (Py.split_ws data') as [|? [|? [|? [|? ?]]]].
Qed.

(** The outcome of a [phone] line. *)
Lemma parse_phone st command nm :
  Py.lower command = "phone " +:+ nm ->
  parse_command command st =
    match data (contacts st) !! nm with
    | None => (Raise (NotFound_contact nm), st)
    | Some contact =>
        match heap st !! contact with
        | None => (Raise (SystemError "dangling reference"), st)
        | Some r =>
            match phones r with
            | [] => (Raise (IndexError "list index out of range"), st)
            | p0 :: _ => (Return ("Phone number for " +:+ nm +:+ ": " +:+ value p0), st)
            end
        end
    end.
Proof.
  intros Hlower.
  unfold parse_command. rewrite Hlower. cbv [String.append]. cbn.
  rewrite prefix_nil, split_sep_0. cbn.
  unfold bind, find, get, ret, deref.
  destruct (data (contacts st) !! nm) as [contact|]; [| done].
  destruct (heap st !! contact) as [r|]; [| done].
  by destruct (phones r).
Qed.

(** The outcome of a [change] line that has a space after the name. *)
Lemma parse_change st command data' :
  Py.lower command = "change " +:+ data' ->
  Py.contains " " data' = true ->
  parse_command command st =
    match Py.split_ws data' with
    | [nm; phone] =>
        match data (contacts st) !! nm with
        | None => (Raise (NotFound_contact nm), st)
        | Some contact =>
            match heap st !! contact with
            | None => (Raise (SystemError "dangling reference"), st)
            | Some r =>
                match phones r with
                | [] => (Raise (IndexError "list index out of range"), st)
                | p0 :: ps =>
                    if decide (ten_digits phone)
                    then (Return ("Updated contact: " +:+ nm +:+ ", " +:+ phone),
                          mkState (<[contact := mkRecord (name r) (mkField phone :: ps)
                                                  (birthday r)]> (heap st))
                            (contacts st) (stdout st))
                    else (Raise InvalidFormat_phone, st)
                end
            end
        end
    | [] | [_] =>
        (Raise (ValueError ("not enough values to unpack (expected 2, got "
                            +:+ Py.str_of_nat (length (Py.split_ws data')) +:+ ")")), st)
    | _ => (Raise (ValueError "too many values to unpack (expected 2)"), st)
    end.
Proof.
  intros Hlower Hspace.
  unfold parse_command. rewrite Hlower. cbv [String.append]. cbn.
  rewrite prefix_nil, split_sep_0. cbn. rewrite Hspace. cbn.
  destruct (Py.split_ws data') as [|nm [|phone [|? ?]]]; try done.
  cbn. unfold bind, find, get, ret, deref.
  destruct (data (contacts st) !! nm) as [contact|]; [| done].
  destruct (heap st !! contact) as [r|] eqn:Hr; [| done].
  destruct (phones r) as [|p0 ps] eqn:Hphones; [done |].
  unfold invoke. rewrite Hr, edit_phone_eq, Hphones.
  rewrite decide_True by (apply has_phone_cons; by left).
  destruct (decide (ten_digits phone)) as [Hphone | Hphone].
  - simpl. by rewrite String.eqb_refl.
  - rewrite list_insert_id by done. by destruct st.
Qed.

Lemma parse_change_short st command data' :
  Py.lower command = "change " +:+ data' ->
  Py.contains " " data' = false ->
  parse_command command st = (Return "Give me name and phone please", st).
Proof.
  intros Hlower Hspace.
  unfold parse_command. rewrite Hlower. cbv [String.append]. cbn.
  rewrite prefix_nil, split_sep_0. cbn. by rewrite Hspace.
Qed.

Lemma parse_exit st command :
  exit_line command ->
  parse_command command st
    = (Raise SystemExit,
       mkState (heap st) (contacts st) (stdout st ++ ["Good bye!" +:+ Py.nl])).
Proof.
  intros [Hlower | [Hlower | Hlower]];
    unfold parse_command; rewrite Hlower; reflexivity.
Qed.

(** ** Assistant: add, phone and change *)

(** X15. An [add] line with three tokens and a well-formed phone stores
    a record with the lower-cased name, that one phone and the birthday,
    in the mapping and at the end of the ordered sequence, and answers
    with the confirmation; a [phone] line for that name, in any case,
    then answers with that phone and changes nothing. *)
Theorem X15_add_then_phone (st : State) (command data' nm phone bd : string) :
  Py.lower command = "add " +:+ data' ->
  Py.split_ws data' = [nm; phone; bd] ->
  ten_digits phone ->
  exists st',
    parse_command command st
      = (Return ("Added contact: " +:+ nm +:+ ", " +:+ phone +:+ ", Birthday: " +:+ bd),
         st') /\
    heap st' = heap st ++ [mkRecord (mkField nm) [mkField phone] (Some (mkField bd))] /\
    data (contacts st') = <[nm := length (heap st)]> (data (contacts st)) /\
    _values (contacts st') = _values (contacts st) ++ [length (heap st)] /\
    Py.lower nm = nm /\
    (forall query,
       Py.lower query = "phone " +:+ nm ->
       parse_command query st'
         = (Return ("Phone number for " +:+ nm +:+ ": " +:+ phone), st')).
Proof.
  intros Hlower Hsplit Hphone.
  rewrite (parse_add_three _ _ _ _ _ _ Hlower Hsplit). cbv zeta.
  rewrite decide_True by done.
  eexists; split; [done |]. do 3 (split; [done |]). split.
  - pose proof (split_ws_lower_tokens data' (command_args _ _ _ Hlower)) as Hwords.
    rewrite Hsplit in Hwords. apply Forall_cons in Hwords as [[_ Hnm] _]. exact Hnm.
  - intros query Hquery. rewrite (parse_phone _ _ _ Hquery). simpl.
    rewrite lookup_insert_eq.
    by rewrite lookup_app_r, Nat.sub_diag by done.
Qed.

Lemma X15_add_then_phone_witness :
  exists st',
    parse_command "Add John 1234567890 1990-05-01" Assistant_init
      = (Return "Added contact: john, 1234567890, Birthday: 1990-05-01", st') /\
    parse_command "PHONE John" st'
      = (Return "Phone number for john: 1234567890", st').
Proof.
  assert (ten_digits "1234567890") as Hten by (by apply is_valid_phone_spec).
  destruct (X15_add_then_phone Assistant_init "Add John 1234567890 1990-05-01"
              "john 1234567890 1990-05-01" "john" "1234567890" "1990-05-01"
              eq_refl eq_refl Hten) as (st' & Hadd & _ & _ & _ & _ & Hphone).
  exists st'. split; [exact Hadd |]. apply (Hphone "PHONE John"). reflexivity.
Defined.

(** X16. An [add] line whose arguments are not exactly three tokens is
    answered with the usage text and stores nothing; the loop prints the
    text. *)
Theorem X16_add_needs_three_tokens (st : State) (command data' : string) :
  Py.lower command = "add " +:+ data' ->
  length (Py.split_ws data') <> 3 ->
  parse_command command st
    = (Return "Give me name, phone, and birthday (if applicable)", st) /\
  run_turn command st
    = (Return tt,
       mkState (heap st) (contacts st)
         (stdout st ++ ["Give me name, phone, and birthday (if applicable)" +:+ Py.nl])).
Proof.
  intros Hlower Hcount.
  pose proof (parse_add_other st _ _ Hlower Hcount) as Hparse.
  split; [exact Hparse |]. unfold run_turn. by rewrite Hparse.
Qed.

Lemma X16_add_needs_three_tokens_witness :
  parse_command "add john 1234567890" six_contacts
    = (Return "Give me name, phone, and birthday (if applicable)", six_contacts) /\
  parse_command "add " six_contacts
    = (Return "Give me name, phone, and birthday (if applicable)", six_contacts).
Proof.
  split.
  - apply (X16_add_needs_three_tokens six_contacts "add john 1234567890"
             "john 1234567890"); [reflexivity |]. vm_compute. lia.
  - apply (X16_add_needs_three_tokens six_contacts "add " ""); [reflexivity |].
    vm_compute. lia.
Defined.

(** X17. A [phone] line looks up everything after the first space as the
    name: a name that is no key raises the not-found error with that
    name, a found record with phones is answered with its first phone;
    the state is unchanged in both cases. *)
Theorem X17_phone_outcomes (st : State) (command nm : string) :
  Py.lower command = "phone " +:+ nm ->
  (data (contacts st) !! nm = None ->
   parse_command command st = (Raise (NotFound_contact nm), st)) /\
  (forall contact r p0 ps,
     data (contacts st) !! nm = Some contact ->
     heap st !! contact = Some r ->
     phones r = p0 :: ps ->
     parse_command command st
       = (Return ("Phone number for " +:+ nm +:+ ": " +:+ value p0), st)).
Proof.
  intros Hlower. rewrite (parse_phone _ _ _ Hlower). split.
  - by intros ->.
  - intros contact r p0 ps -> -> ->. done.
Qed.

Lemma X17_phone_outcomes_witness :
  parse_command "phone unknownperson" six_contacts
    = (Raise (NotFound_contact "unknownperson"), six_contacts) /\
  parse_command "Phone cat" six_contacts
    = (Return "Phone number for cat: 3333333333", six_contacts) /\
  parse_command "phone cat " six_contacts
    = (Raise (NotFound_contact "cat "), six_contacts).
Proof.
  split; [| split].
  - apply (X17_phone_outcomes six_contacts "phone unknownperson" "unknownperson");
      reflexivity.
  - apply (proj2 (X17_phone_outcomes six_contacts "Phone cat" "cat" eq_refl)
             2 (mkRecord (mkField "cat") [mkField "3333333333"]
                  (Some (mkField "1990-01-03")))
             (mkField "3333333333") []); reflexivity.
  - apply (X17_phone_outcomes six_contacts "phone cat " "cat "); reflexivity.
Defined.

(** X18. A [change] line for a known contact with a well-formed phone
    replaces the first phone of the record and nothing else: the later
    phones, the name, the birthday, the other records and both views of
    the book stay. A [phone] line for the name then answers with the
    new phone. *)
Theorem X18_change_replaces_first_phone
    (st : State) (command data' nm phone : string)
    (contact : loc) (r : Record_) (p0 : Phone) (ps : list Phone) :
  Py.lower command = "change " +:+ data' ->
  Py.contains " " data' = true ->
  Py.split_ws data' = [nm; phone] ->
  data (contacts st) !! nm = Some contact ->
  heap st !! contact = Some r ->
  phones r = p0 :: ps ->
  ten_digits phone ->
  exists st',
    parse_command command st
      = (Return ("Updated contact: " +:+ nm +:+ ", " +:+ phone), st') /\
    heap st' !! contact
      = Some (mkRecord (name r) (mkField phone :: ps) (birthday r)) /\
    (forall l, l <> contact -> heap st' !! l = heap st !! l) /\
    contacts st' = contacts st /\
    (forall query,
       Py.lower query = "phone " +:+ nm ->
       parse_command query st'
         = (Return ("Phone number for " +:+ nm +:+ ": " +:+ phone), st')).
Proof.
  intros Hlower Hspace Hsplit Hnm Hr Hphones Hphone.
  rewrite (parse_change _ _ _ Hlower Hspace), Hsplit, Hnm, Hr, Hphones.
  rewrite decide_True by done.
  pose proof (lookup_lt_Some _ _ _ Hr) as Hlt.
  eexists; split; [done |]. simpl. split; [by apply list_lookup_insert_eq |].
  split; [intros l Hne; by apply list_lookup_insert_ne |]. split; [done |].
  intros query Hquery. rewrite (parse_phone _ _ _ Hquery). simpl.
  by rewrite Hnm, list_lookup_insert_eq.
Qed.

Lemma X18_change_replaces_first_phone_witness :
  exists st',
    parse_command "Change Cat 0987654321" six_contacts
      = (Return "Updated contact: cat, 0987654321", st') /\
    parse_command "phone cat" st'
      = (Return "Phone number for cat: 0987654321", st').
Proof.
  assert (ten_digits "0987654321") as Hten by (by apply is_valid_phone_spec).
  destruct (X18_change_replaces_first_phone six_contacts "Change Cat 0987654321"
              "cat 0987654321" "cat" "0987654321" 2
              (mkRecord (mkField "cat") [mkField "3333333333"] (Some (mkField "1990-01-03")))
              (mkField "3333333333") []
              eq_refl eq_refl eq_refl eq_refl eq_refl eq_refl Hten)
    as (st' & Hchange & _ & _ & _ & Hphone).
  exists st'. split; [exact Hchange |]. apply (Hphone "phone cat"). reflexivity.
Defined.

(** X19. A [change] line that raises leaves the state exactly as it was:
    a name that is no key raises the not-found error, a malformed phone
    for a known contact with phones the format error, and a wrong number
    of tokens the [ValueError] of the unpacking. *)
Theorem X19_change_fails_without_effect (st : State) (command data' : string) :
  Py.lower command = "change " +:+ data' ->
  (forall e st', parse_command command st = (Raise e, st') -> st' = st) /\
  (forall nm phone,
     Py.contains " " data' = true -> Py.split_ws data' = [nm; phone] ->
     (data (contacts st) !! nm = None ->
      parse_command command st = (Raise (NotFound_contact nm), st)) /\
     (forall contact r p0 ps,
        data (contacts st) !! nm = Some contact ->
        heap st !! contact = Some r -> phones r = p0 :: ps ->
        ~ ten_digits phone ->
        parse_command command st = (Raise InvalidFormat_phone, st))) /\
  (Py.contains " " data' = true -> length (Py.split_ws data') <> 2 ->
   exists msg, parse_command command st = (Raise (ValueError msg), st)).
Proof.
  intros Hlower. split; [| split].
  - intros e st'. destruct (Py.contains " " data') eqn:Hspace.
    + rewrite (parse_change _ _ _ Hlower Hspace).
      destruct (Py.split_ws data') as [|nm [|phone [|? ?]]]; try by intros [= _ <-].
      destruct (data (contacts st) !! nm) as [contact|]; [| by intros [= _ <-]].
      destruct (heap st !! contact) as [r|]; [| by intros [= _ <-]].
      destruct (phones r) as [|p0 ps]; [by intros [= _ <-] |].
      destruct (decide (ten_digits phone)); [done | by intros [= _ <-]].
    + by rewrite (parse_change_short _ _ _ Hlower Hspace).
  - intros nm phone Hspace Hsplit.
    rewrite (parse_change _ _ _ Hlower Hspace), Hsplit. split.
    + by intros ->.
    + intros contact r p0 ps -> -> -> Hphone. by rewrite decide_False.
  - intros Hspace Hcount. rewrite (parse_change _ _ _ Hlower Hspace).
    destruct (Py.split_ws data') as [|nm [|phone [|? ?]]];
      [by eexists | by eexists | done | by eexists].
Qed.

Lemma X19_change_fails_without_effect_witness :
  parse_command "change nobody 1234567890" six_contacts
    = (Raise (NotFound_contact "nobody"), six_contacts) /\
  parse_command "change cat 123" six_contacts
    = (Raise InvalidFormat_phone, six_contacts) /\
  exists msg, parse_command "change cat 1 2" six_contacts
    = (Raise (ValueError msg), six_contacts).
Proof.
  destruct (X19_change_fails_without_effect six_contacts "change nobody 1234567890"
              "nobody 1234567890" eq_refl) as (_ & Hnobody & _).
  destruct (X19_change_fails_without_effect six_contacts "change cat 123"
              "cat 123" eq_refl) as (_ & Hcat & _).
  destruct (X19_change_fails_without_effect six_contacts "change cat 1 2"
              "cat 1 2" eq_refl) as (_ & _ & Hcount).
  split; [| split].
  - apply (Hnobody "nobody" "1234567890"); reflexivity.
  - apply (proj2 (Hcat "cat" "123" eq_refl eq_refl) 2
             (mkRecord (mkField "cat") [mkField "3333333333"] (Some (mkField "1990-01-03")))
             (mkField "3333333333") []); try reflexivity.
    intros [Hlen _]. discriminate Hlen.
  - apply Hcount; [reflexivity |]. vm_compute. lia.
Defined.

(** ** Assistant: the commands that only read *)

Section Queries.

Context {A B : Type}.

Lemma query_ret (a : A) : query (ret a).
Proof. by intros st. Qed.

Lemma query_raise (e : exn) : e <> SystemExit -> query (raise (A := A) e).
Proof. intros He st. split; [done |]. simpl. congruence. Qed.

Lemma query_bind (m : M State A) (k : A -> M State B) :
  query m -> (forall a, query (k a)) -> query (bind m k).
Proof.
  intros Hm Hk st. unfold bind. destruct (Hm st) as [Hst He].
  destruct (m st) as [[a | e] st']; simpl in *; subst st'.
  - apply Hk.
  - split; [done |]. congruence.
Qed.

End Queries.

Lemma query_get : query get.
Proof. by intros st. Qed.

Lemma query_unpack2 l : query (unpack2 l).
Proof. intros st. by destruct l as [|a [|b [|c l]]]. Qed.

Lemma query_find nm : query (find nm).
Proof. by intros st. Qed.

Lemma query_deref l : query (deref l).
Proof. intros st. unfold deref. by destruct (heap st !! l). Qed.

Lemma query_records_str ls : query (records_str ls).
Proof.
  induction ls as [|l ls IH]; [apply query_ret |]. simpl.
  apply query_bind; [apply query_deref |]. intros r.
  apply query_bind; [apply IH |]. intros rest. apply query_ret.
Qed.

Lemma query_paginated_contacts page page_size :
  query (paginated_contacts page page_size).
Proof.
  unfold paginated_contacts, paginated_list.
  apply query_bind.
  - apply query_bind; [apply query_get |]. intros st. apply query_ret.
  - intros [|l ls]; [apply query_ret |].
    apply query_bind; [apply query_records_str |]. intros lines. apply query_ret.
Qed.

Lemma query_show_page page_str : query (show_page page_str).
Proof.
  intros st. rewrite show_page_spec.
  destruct (Py.int page_str) as [page|]; [| done].
  destruct (0 <? page)%Z; [apply query_paginated_contacts | done].
Qed.

Lemma exit_line_eqb command :
  String.eqb (Py.lower command) "good bye" || String.eqb (Py.lower command) "close"
    || String.eqb (Py.lower command) "exit" = true ->
  exit_line command.
Proof.
  unfold exit_line. rewrite !orb_true_iff, !String.eqb_eq. tauto.
Qed.

(** A line that is no [add] line, no [change] line and no exit line is a
    query. *)
Lemma parse_command_query command :
  Py.startswith (Py.lower command) "add " = false ->
  Py.startswith (Py.lower command) "change " = false ->
  ~ exit_line command ->
  query (parse_command command).
Proof.
  intros Hadd Hchange Hexit. unfold parse_command.
  destruct (String.eqb _ "hello"); [apply query_ret |].
  rewrite Hadd, Hchange.
  destruct (Py.startswith _ "phone ").
  { apply query_bind; [apply query_unpack2 |]. intros [? nm].
    apply query_bind; [apply query_find |]. intros [contact|].
    - apply query_bind; [apply query_deref |]. intros r.
      destruct (phones r); [by apply query_raise | apply query_ret].
    - by apply query_raise. }
  destruct (String.eqb _ "show all").
  { apply query_bind; [apply query_get |]. intros st.
    destruct (decide _); [apply query_ret | apply query_paginated_contacts]. }
  destruct (Py.startswith _ "show page ").
  { apply query_bind; [apply query_unpack2 |]. intros [? page_str].
    apply query_show_page. }
  destruct (String.eqb (Py.lower command) "good bye"
            || String.eqb (Py.lower command) "close"
            || String.eqb (Py.lower command) "exit") eqn:Hexit';
    [by apply exit_line_eqb in Hexit' |].
  destruct (String.eqb (Py.lower command) "add"
            || String.eqb (Py.lower command) "change"); [apply query_ret |].
  destruct (String.eqb _ "phone"); [apply query_ret |].
  by apply query_raise.
Qed.

(** X25. A line that is neither an [add] line, a [change] line nor an
    exit line changes nothing at all, whether it is answered or raises:
    [hello], [phone], [show all], [show page], the bare command words
    and every unknown line only read the book. *)
Theorem X25_other_lines_only_read (command : string) (st : State) :
  Py.startswith (Py.lower command) "add " = false ->
  Py.startswith (Py.lower command) "change " = false ->
  ~ exit_line command ->
  snd (parse_command command st) = st /\
  heap (snd (run_turn command st)) = heap st /\
  contacts (snd (run_turn command st)) = contacts st.
Proof.
  intros Hadd Hchange Hexit.
  destruct (parse_command_query command Hadd Hchange Hexit st) as [Hst Hraise].
  split; [exact Hst |]. unfold run_turn.
  destruct (parse_command command st) as [[result | e] st']; simpl in Hst; subst st'.
  - by destruct result.
  - by destruct (is_Exception e).
Qed.

Lemma X25_other_lines_only_read_witness :
  snd (parse_command "Show All" six_contacts) = six_contacts /\
  snd (parse_command "phone nobody" six_contacts) = six_contacts /\
  snd (parse_command "delete cat" six_contacts) = six_contacts.
Proof.
  split; [| split].
  - apply (X25_other_lines_only_read "Show All" six_contacts); try reflexivity.
    by intros [? | [? | ?]].
  - apply (X25_other_lines_only_read "phone nobody" six_contacts); try reflexivity.
    by intros [? | [? | ?]].
  - apply (X25_other_lines_only_read "delete cat" six_contacts); try reflexivity.
    by intros [? | [? | ?]].
Defined.

(** ** Assistant: what a command does to the book *)

Lemma parse_command_effect command st :
  effect st (snd (parse_command command st)).
Proof.
  destruct (Py.startswith (Py.lower command) "add ") eqn:Hadd.
  { apply prefix_split in Hadd as [data' Hlower].
    pose proof (split_ws_lower_tokens data' (command_args _ _ _ Hlower)) as Htokens.
    destruct (decide (length (Py.split_ws data') = 3)) as [Hlen | Hlen].
    - destruct (Py.split_ws data') as [|nm [|phone [|bd [|? ?]]]] eqn:Hsplit; try done.
      rewrite (parse_add_three _ _ _ _ _ _ Hlower Hsplit).
      apply Forall_cons in Htokens as [[Hnm Hnm'] Htokens].
      apply Forall_cons in Htokens as [_ Htokens].
      apply Forall_cons in Htokens as [[[Hbd _] _] _].
      cbv zeta. destruct (decide (ten_digits phone)) as [Hphone | Hphone]; simpl.
      + apply (effect_add _ _ nm bd [mkField phone]); eauto.
      + apply (effect_add _ _ nm bd []); auto.
    - rewrite (parse_add_other _ _ _ Hlower Hlen). by apply effect_none. }
  destruct (Py.startswith (Py.lower command) "change ") eqn:Hchange.
  { apply prefix_split in Hchange as [data' Hlower].
    destruct (Py.contains " " data') eqn:Hspace.
    - rewrite (parse_change _ _ _ Hlower Hspace).
      destruct (Py.split_ws data') as [|nm [|phone [|? ?]]]; try by apply effect_none.
      destruct (data (contacts st) !! nm) as [contact|] eqn:Hnm; [| by apply effect_none].
      destruct (heap st !! contact) as [r|] eqn:Hr; [| by apply effect_none].
      destruct (phones r) as [|p0 ps] eqn:Hps; [by apply effect_none |].
      destruct (decide (ten_digits phone)); [| by apply effect_none].
      by eapply effect_change.
    - rewrite (parse_change_short _ _ _ Hlower Hspace). by apply effect_none. }
  destruct (decide (exit_line command)) as [Hexit | Hexit].
  - rewrite (parse_exit _ _ Hexit). by apply effect_none.
  - destruct (parse_command_query command Hadd Hchange Hexit st) as [-> _].
    by apply effect_none.
Qed.

Lemma run_turn_book command st :
  heap (snd (run_turn command st)) = heap (snd (parse_command command st)) /\
  contacts (snd (run_turn command st)) = contacts (snd (parse_command command st)).
Proof.
  unfold run_turn. destruct (parse_command command st) as [[result | e] st'].
  - by destruct result.
  - by destruct (is_Exception e).
Qed.

Lemma effect_book st st' st'' :
  heap st'' = heap st' -> contacts st'' = contacts st' ->
  effect st st' -> effect st st''.
Proof.
  intros Hh Hc [? ? | nm bd ps ? ? ? ? ? ? | nm contact r p0 ps phone ? ? ? ? ? ?].
  - apply effect_none; congruence.
  - apply (effect_add _ _ nm bd ps); congruence.
  - apply (effect_change _ _ nm contact r p0 ps phone); congruence.
Qed.

Lemma run_turn_effect command st : effect st (snd (run_turn command st)).
Proof.
  destruct (run_turn_book command st) as [Hh Hc].
  exact (effect_book _ _ _ Hh Hc (parse_command_effect command st)).
Qed.

Lemma name_at_app st st' r (l : loc) k :
  heap st' = heap st ++ [r] -> name_at st l = Some k -> name_at st' l = Some k.
Proof.
  unfold name_at. intros -> Hl.
  destruct (heap st !! l) as [r'|] eqn:Hr; [| done].
  by rewrite (lookup_app_l_Some _ _ _ _ Hr).
Qed.

Lemma name_at_new st st' r :
  heap st' = heap st ++ [r] -> name_at st' (length (heap st)) = Some (value (name r)).
Proof.
  unfold name_at. intros ->.
  by rewrite lookup_app_r, Nat.sub_diag.
Qed.

Lemma name_at_insert st st' (contact : loc) r r' (l : loc) :
  heap st' = <[contact := r']> (heap st) ->
  heap st !! contact = Some r -> name r' = name r ->
  name_at st' l = name_at st l.
Proof.
  unfold name_at. intros -> Hr Hname.
  destruct (decide (l = contact)) as [-> | Hne].
  - rewrite list_lookup_insert_eq by (by eapply lookup_lt_Some).
    rewrite Hr. simpl. by rewrite Hname.
  - by rewrite list_lookup_insert_ne.
Qed.

Lemma effect_linked st st' : effect st st' -> linked st -> linked st'.
Proof.
  intros [Hh Hc | nm bd ps Hnm Hlower Hbd Hps Hh Hc
          | nm contact r p0 ps phone Hnm Hr Hps Hphone Hh Hc] Hlinked.
  - by apply (linked_heap_contacts st).
  - destruct Hlinked as [Hkeys Hentries]. split; rewrite Hc; simpl.
    + intros k l Hk. destruct (decide (k = nm)) as [-> | Hne].
      * rewrite lookup_insert_eq in Hk. injection Hk as <-. split.
        -- by rewrite (name_at_new _ _ _ Hh).
        -- apply elem_of_app. right. by apply list_elem_of_singleton.
      * rewrite lookup_insert_ne in Hk by done.
        destruct (Hkeys k l Hk) as [Hl Hin]. split.
        -- by apply (name_at_app _ _ _ _ _ Hh).
        -- apply elem_of_app. by left.
    + intros l Hl. apply elem_of_app in Hl as [Hl | Hl].
      * destruct (Hentries l Hl) as (k & Hk & Hd). exists k. split.
        -- by apply (name_at_app _ _ _ _ _ Hh).
        -- apply lookup_insert_is_Some'. by right.
      * apply list_elem_of_singleton in Hl as ->. exists nm. split.
        -- by rewrite (name_at_new _ _ _ Hh).
        -- apply lookup_insert_is_Some'. by left.
  - assert (forall l : loc, name_at st' l = name_at st l) as Hnames.
    { intros l. by apply (name_at_insert _ _ _ _ _ _ Hh Hr). }
    destruct Hlinked as [Hkeys Hentries]. split; rewrite Hc.
    + intros k l Hk. rewrite Hnames. by apply Hkeys.
    + intros l Hl. rewrite Hnames. by apply Hentries.
Qed.

Lemma effect_contact_ok st st' :
  effect st st' -> Forall contact_ok (heap st) -> Forall contact_ok (heap st').
Proof.
  intros [Hh Hc | nm bd ps Hnm Hlower Hbd Hps Hh Hc
          | nm contact r p0 ps phone Hnm Hr Hps Hphone Hh Hc] Hok; rewrite Hh.
  - done.
  - apply Forall_app. split; [done |]. constructor; [| constructor].
    unfold contact_ok, phones_valid. simpl.
    split; [done |]. split; [done |].
    destruct Hps as [-> | (phone & -> & Hphone)]; simpl.
    + split; [constructor |]. split; [lia | done].
    + split; [constructor; [done | constructor] |]. split; [lia | done].
  - apply Forall_insert; [done |].
    destruct (Forall_lookup_1 _ _ _ _ Hok Hr) as (Ht & Hl & Hv & Hlen & Hb).
    unfold contact_ok, phones_valid in *. simpl.
    rewrite Hps in Hv, Hlen. apply Forall_cons in Hv as [_ Hv].
    split; [done |]. split; [done |].
    split; [by constructor |]. split; [simpl in *; lia | done].
Qed.

Lemma turns_invariant (I : State -> Prop) :
  (forall st st', effect st st' -> I st -> I st') ->
  forall commands st, I st -> I (turns commands st).
Proof.
  intros Hstep commands. induction commands as [|command rest IH]; intros st Hst; [done |].
  simpl. pose proof (run_turn_effect command st) as He.
  destruct (run_turn command st) as [[[] | e] st']; simpl in He; eauto.
Qed.

(** X24. No command takes anything away: whatever line is handled, the
    records of the ordered sequence stay where they are (the old sequence
    is a prefix of the new one), every key of the mapping stays a key,
    and every record keeps its name and its birthday. [delete] and
    [remove_phone] are never called by the interpreter. *)
Theorem X24_commands_never_remove (command : string) (st : State) :
  let st' := snd (run_turn command st) in
  _values (contacts st) `prefix_of` _values (contacts st') /\
  (forall nm, is_Some (data (contacts st) !! nm) ->
     is_Some (data (contacts st') !! nm)) /\
  (forall (l : loc) r, heap st !! l = Some r ->
     exists r', heap st' !! l = Some r' /\ name r' = name r /\
                birthday r' = birthday r).
Proof.
  intros st'. subst st'.
  destruct (run_turn_effect command st)
    as [Hh Hc | nm bd ps Hnm Hlower Hbd Hps Hh Hc
        | nm contact r0 p0 ps phone Hnm Hr Hps Hphone Hh Hc]; rewrite Hc, Hh.
  - split; [done |]. split; [done |]. intros l r Hl. by exists r.
  - simpl. split; [by apply prefix_app_r |]. split.
    + intros k Hk. apply lookup_insert_is_Some'. by right.
    + intros l r Hl. exists r. by rewrite (lookup_app_l_Some _ _ _ _ Hl).
  - split; [done |]. split; [done |]. intros l r Hl.
    destruct (decide (l = contact)) as [-> | Hne].
    + rewrite list_lookup_insert_eq by (by eapply lookup_lt_Some).
      eexists. split; [done |]. simpl. split; congruence.
    + exists r. by rewrite list_lookup_insert_ne.
Qed.

(** ** Assistant: the loop *)

Lemma parse_command_exit command st st' :
  parse_command command st = (Raise SystemExit, st') -> exit_line command.
Proof.
  intros Hp. destruct (decide (exit_line command)) as [| Hexit]; [done |]. exfalso.
  unfold InvalidFormat_phone, NotFound_contact in *.
  destruct (Py.startswith (Py.lower command) "add ") eqn:Hadd.
  { apply prefix_split in Hadd as [data' Hlower].
    destruct (decide (length (Py.split_ws data') = 3)) as [Hlen | Hlen].
    - destruct (Py.split_ws data') as [|nm [|phone [|bd [|? ?]]]] eqn:Hsplit; try done.
      rewrite (parse_add_three _ _ _ _ _ _ Hlower Hsplit) in Hp. cbv zeta in Hp.
      unfold InvalidFormat_phone in Hp. by destruct (decide (ten_digits phone)).
    - by rewrite (parse_add_other _ _ _ Hlower Hlen) in Hp. }
  destruct (Py.startswith (Py.lower command) "change ") eqn:Hchange.
  { apply prefix_split in Hchange as [data' Hlower].
    destruct (Py.contains " " data') eqn:Hspace.
    - rewrite (parse_change _ _ _ Hlower Hspace) in Hp.
      unfold InvalidFormat_phone, NotFound_contact in Hp.
      destruct (Py.split_ws data') as [|nm [|phone [|? ?]]]; try done.
      destruct (data (contacts st) !! nm) as [contact|]; [| done].
      destruct (heap st !! contact) as [r|]; [| done].
      destruct (phones r) as [|p0 ps]; [done |].
      by destruct (decide (ten_digits phone)).
    - by rewrite (parse_change_short _ _ _ Hlower Hspace) in Hp. }
  destruct (parse_command_query command Hadd Hchange Hexit st) as [_ Hne].
  by rewrite Hp in Hne.
Qed.

Lemma run_turn_exit command st :
  exit_line command ->
  run_turn command st
    = (Raise SystemExit,
       mkState (heap st) (contacts st) (stdout st ++ ["Good bye!" +:+ Py.nl])).
Proof. intros Hexit. unfold run_turn. by rewrite (parse_exit _ _ Hexit). Qed.

Lemma run_turn_returns command st :
  ~ exit_line command -> exists st', run_turn command st = (Return tt, st').
Proof.
  intros Hexit. unfold run_turn.
  destruct (parse_command command st) as [[result | e] st'] eqn:Hp.
  - destruct result; by eexists.
  - destruct e; try by eexists. destruct Hexit. by eapply parse_command_exit.
Qed.

(** X22. The loop never ends on an error. A turn ends the session only
    for an exit line, after printing the farewell; for every other line
    it returns, and when the command raised (whatever it raised) the
    message is printed after [Error: ] and the state is the one the
    command left. *)
Theorem X22_only_exit_lines_end_the_loop (command : string) (st : State) :
  (exit_line command ->
   run_turn command st
     = (Raise SystemExit,
        mkState (heap st) (contacts st) (stdout st ++ ["Good bye!" +:+ Py.nl]))) /\
  (~ exit_line command ->
   (exists st', run_turn command st = (Return tt, st')) /\
   (forall e st1, parse_command command st = (Raise e, st1) ->
      run_turn command st
        = (Return tt,
           mkState (heap st1) (contacts st1)
             (stdout st1 ++ ["Error: " +:+ exn_str e +:+ Py.nl])))).
Proof.
  split; [apply run_turn_exit |]. intros Hexit.
  split; [by apply run_turn_returns |]. intros e st1 Hp.
  unfold run_turn. rewrite Hp. destruct e; try done.
  destruct Hexit. by eapply parse_command_exit.
Qed.

Lemma X22_only_exit_lines_end_the_loop_witness :
  fst (run_turn "Exit" six_contacts) = Raise SystemExit /\
  run_turn "phone nobody" six_contacts
    = (Return tt,
       mkState (heap six_contacts) (contacts six_contacts)
         (stdout six_contacts ++ ["Error: Contact 'nobody' not found." +:+ Py.nl])).
Proof.
  split.
  - rewrite (proj1 (X22_only_exit_lines_end_the_loop "Exit" six_contacts));
      [reflexivity |]. right. right. reflexivity.
  - assert (~ exit_line "phone nobody") as Hexit by (by intros [? | [? | ?]]).
    apply (proj2 (proj2 (X22_only_exit_lines_end_the_loop "phone nobody" six_contacts)
                    Hexit) (NotFound_contact "nobody") six_contacts).
    reflexivity.
Defined.

Lemma run_loop_cons command rest st :
  run_loop (command :: rest) st =
    let st0 := mkState (heap st) (contacts st) (stdout st ++ ["Enter a command: "]) in
    match run_turn command st0 with
    | (Return _, st') => run_loop rest st'
    | (Raise e, st') => (Raise e, st')
    end.
Proof. reflexivity. Qed.

Lemma run_loop_exit pre command st :
  Forall (fun c => ~ exit_line c) pre -> exit_line command ->
  exists st', forall post, run_loop (pre ++ command :: post) st = (Raise SystemExit, st').
Proof.
  intros Hpre Hexit. revert st.
  induction Hpre as [|c pre Hc _ IH]; intros st.
  - eexists. intros post. rewrite app_nil_l, run_loop_cons. cbv zeta.
    by rewrite (run_turn_exit _ _ Hexit).
  - set (st0 := mkState (heap st) (contacts st) (stdout st ++ ["Enter a command: "])).
    destruct (run_turn_returns c st0 Hc) as [st1 H1].
    destruct (IH st1) as [st' Hst']. exists st'. intros post.
    rewrite <- app_comm_cons, run_loop_cons. cbv zeta. fold st0. rewrite H1.
    apply Hst'.
Qed.

Lemma run_loop_eof inputs st :
  Forall (fun c => ~ exit_line c) inputs ->
  exists st', run_loop inputs st = (Raise EOFError, st').
Proof.
  intros Hinputs. revert st.
  induction Hinputs as [|c inputs Hc _ IH]; intros st; [by eexists |].
  set (st0 := mkState (heap st) (contacts st) (stdout st ++ ["Enter a command: "])).
  destruct (run_turn_returns c st0 Hc) as [st1 H1].
  destruct (IH st1) as [st' Hst']. exists st'.
  rewrite run_loop_cons. cbv zeta. fold st0. by rewrite H1.
Qed.

Lemma run_loop_invariant (I : State -> Prop) :
  (forall st st', effect st st' -> I st -> I st') ->
  forall inputs st, I st -> I (snd (run_loop inputs st)).
Proof.
  intros Hstep inputs. induction inputs as [|c inputs IH]; intros st Hst.
  - simpl. apply (Hstep st); [by apply effect_none | done].
  - rewrite run_loop_cons. cbv zeta.
    set (st0 := mkState (heap st) (contacts st) (stdout st ++ ["Enter a command: "])).
    assert (I st0) as Hst0 by (apply (Hstep st); [by apply effect_none | done]).
    pose proof (run_turn_effect c st0) as He.
    destruct (run_turn c st0) as [[[] | e] st']; simpl in He; eauto.
Qed.

(** X21. Once an exit line is read, nothing after it matters: if no line
    before it is an exit line, [run] ends with [SystemExit] in a state,
    output included, that is the same whatever lines follow. *)
Theorem X21_lines_after_exit_are_not_read
    (pre : list string) (command : string) (st : State) :
  Forall (fun c => ~ exit_line c) pre -> exit_line command ->
  exists st', forall post, run (pre ++ command :: post) st = (Raise SystemExit, st').
Proof.
  intros Hpre Hexit.
  set (st0 := mkState (heap st) (contacts st)
                (stdout st ++ ["Bot assistant is running. Type 'exit' to exit." +:+ Py.nl])).
  destruct (run_loop_exit pre command st0 Hpre Hexit) as [st' Hst'].
  exists st'. intros post. exact (Hst' post).
Qed.

Lemma X21_lines_after_exit_are_not_read_witness :
  exists st', forall post,
    run (["hello"; "add ann 1111111111 1990-01-01"] ++ "close" :: post) Assistant_init
      = (Raise SystemExit, st').
Proof.
  apply (X21_lines_after_exit_are_not_read
           ["hello"; "add ann 1111111111 1990-01-01"] "close" Assistant_init).
  - constructor; [by intros [? | [? | ?]] |].
    constructor; [by intros [? | [? | ?]] | constructor].
  - right. left. reflexivity.
Defined.

(** X23. [run] never returns. It ends with [SystemExit] exactly when some
    line is an exit line, and otherwise with the [EOFError] of [input] at
    the end of the lines: no error of a command ends it. *)
Theorem X23_run_never_returns (inputs : list string) (st : State) :
  (Exists exit_line inputs /\ fst (run inputs st) = Raise SystemExit) \/
  (Forall (fun c => ~ exit_line c) inputs /\ fst (run inputs st) = Raise EOFError).
Proof.
  set (st0 := mkState (heap st) (contacts st)
                (stdout st ++ ["Bot assistant is running. Type 'exit' to exit." +:+ Py.nl])).
  assert (run inputs st = run_loop inputs st0) as -> by reflexivity.
  destruct (decide (Exists exit_line inputs)) as [Hex | Hnone].
  - left. split; [done |].
    assert (exists pre command post,
              inputs = pre ++ command :: post /\
              Forall (fun c => ~ exit_line c) pre /\ exit_line command)
      as (pre & command & post & -> & Hpre & Hexit).
    { clear st0. induction inputs as [|c inputs IH]; [by apply Exists_nil in Hex |].
      destruct (decide (exit_line c)) as [Hc | Hc].
      - by exists [], c, inputs.
      - apply Exists_cons in Hex as [? | Hex]; [done |].
        destruct (IH Hex) as (pre & command & post & -> & Hpre & Hexit).
        exists (c :: pre), command, post. split; [done |]. split; [by constructor | done]. }
    destruct (run_loop_exit pre command st0 Hpre Hexit) as [st' Hst'].
    by rewrite Hst'.
  - right. apply not_Exists_Forall in Hnone; [| apply _].
    split; [done |].
    destruct (run_loop_eof inputs st0 Hnone) as [st' ->]. done.
Qed.

(** X26. Whatever lines are read, the book that [run] leaves, started on
    the empty book, keeps the two views linked (every key names its
    record, which is an entry of the ordered sequence, and every entry
    bears a name that is a key), and every record it holds has a
    lower-case token as its name, at most one phone, a well-formed one,
    and a birthday. The same holds after any number of turns. *)
Theorem X26_books_of_the_interpreter (inputs : list string) :
  (linked (snd (run inputs Assistant_init)) /\
   Forall contact_ok (heap (snd (run inputs Assistant_init)))) /\
  (linked (after inputs) /\ Forall contact_ok (heap (after inputs))).
Proof.
  set (I := fun st => linked st /\ Forall contact_ok (heap st)).
  assert (forall st st', effect st st' -> I st -> I st') as Hstep.
  { intros st st' He [Hl Hok]. split.
    - by apply (effect_linked st).
    - by apply (effect_contact_ok st). }
  assert (I Assistant_init) as Hinit by (split; [apply linked_init | constructor]).
  split.
  - apply (run_loop_invariant I Hstep inputs).
    apply (Hstep Assistant_init); [by apply effect_none | done].
  - apply (turns_invariant I Hstep inputs _ Hinit).
Qed.

(** ** Assistant: show all *)

Lemma parse_show_all st command :
  Py.lower command = "show all" ->
  parse_command command st =
    if decide (data (contacts st) = ∅) then (Return "No users found", st)
    else paginated_contacts 1 5 st.
Proof.
  intros Hlower. unfold parse_command. rewrite Hlower.
  change (String.eqb "show all" "hello") with false.
  change (Py.startswith "show all" "add ") with false.
  change (Py.startswith "show all" "change ") with false.
  change (Py.startswith "show all" "phone ") with false.
  change (String.eqb "show all" "show all") with true.
  cbv iota. unfold bind, get, ret. by destruct (decide _).
Qed.

Lemma records_str_shown ls st :
  Forall (fun l => l < length (heap st)) ls ->
  records_str ls st = (Return (shown st ls), st) /\
  length (shown st ls) = length ls.
Proof.
  unfold shown. induction 1 as [|l ls Hl _ [IH IHlen]]; [done |].
  destruct (allocated st l Hl) as [r Hr].
  simpl. unfold bind. rewrite (deref_Some _ _ _ Hr), IH, Hr. simpl.
  split; [done |]. f_equal. exact IHlen.
Qed.

(** X20. [show all] does not show all: on a book whose mapping is not
    empty it answers with the lines of at most the first five records of
    the ordered sequence, in order, and changes nothing. Whether it
    answers [No users found] is decided by the mapping, and the page by
    the sequence; when the two views are linked, a mapping that is not
    empty has a first page. *)
Theorem X20_show_all_first_five (command : string) (st : State) :
  Py.lower command = "show all" -> heap_ok st ->
  let page := take 5 (_values (contacts st)) in
  parse_command command st =
    (Return (if decide (data (contacts st) = ∅) then "No users found"
             else if decide (_values (contacts st) = [])
                  then "No contacts found on this page."
                  else Py.join Py.nl (shown st page)), st) /\
  length (shown st page) = min 5 (length (_values (contacts st))) /\
  (linked st -> data (contacts st) <> ∅ -> _values (contacts st) <> []).
Proof.
  intros Hlower [Hvalues _] page.
  assert (Forall (fun l => l < length (heap st)) page) as Hpage
    by (by apply Forall_take).
  destruct (records_str_shown page st Hpage) as [Hstr Hlen].
  split; [| split].
  - rewrite (parse_show_all _ _ Hlower).
    destruct (decide (data (contacts st) = ∅)); [done |].
    unfold paginated_contacts, bind.
    rewrite paginated_list_chunk by lia.
    change (Z.to_nat 5) with 5. change (Z.to_nat ((1 - 1) * 5)) with 0.
    rewrite drop_0. fold page.
    destruct (decide (_values (contacts st) = [])) as [Hnil | Hcons].
    + subst page. by rewrite Hnil.
    + destruct page as [|l ls] eqn:Hp.
      * subst page. destruct (_values (contacts st)); [done | discriminate].
      * by rewrite Hstr.
  - rewrite Hlen. subst page. by rewrite length_take.
  - intros [Hkeys _] Hdata Hnil.
    apply map_choose in Hdata as (k & l & Hk).
    destruct (Hkeys k l Hk) as [_ Hin]. rewrite Hnil in Hin.
    by apply elem_of_nil in Hin.
Qed.

Lemma X20_show_all_first_five_witness :
  fst (parse_command "Show All" six_contacts)
    = Return (Py.join Py.nl (shown six_contacts (take 5 (_values (contacts six_contacts)))))
  /\ length (shown six_contacts (take 5 (_values (contacts six_contacts)))) = 5.
Proof.
  destruct (X20_show_all_first_five "Show All" six_contacts eq_refl
              (heap_ok_after _)) as (Hp & Hlen & _).
  split; [| exact Hlen]. rewrite Hp. reflexivity.
Defined.

(** ** Examples *)

(** *** The built-ins *)

Example split_add_line :
  Py.split_sep " " 1 "add john 123 x" = ["add"; "john 123 x"].
Proof. reflexivity. Qed.

Example split_show_page_line :
  Py.split_sep " " 2 "show page 3" = ["show"; "page"; "3"].
Proof. reflexivity. Qed.

Example split_show_page_rest :
  Py.split_sep " " 2 "show page 3 4" = ["show"; "page"; "3 4"].
Proof. reflexivity. Qed.

Example split_on_whitespace :
  Py.split_ws "  john   123 x " = ["john"; "123"; "x"].
Proof. reflexivity. Qed.

Example int_sign_and_underscore : Py.int " -1_0 " = Some (-10)%Z.
Proof. reflexivity. Qed.

Example int_double_underscore : Py.int "1__0" = None.
Proof. reflexivity. Qed.

Example int_leading_zeros : Py.int "007" = Some 7%Z.
Proof. reflexivity. Qed.

Example int_not_a_number : Py.int "two" = None.
Proof. reflexivity. Qed.

Example int_information_separator :
  Py.int (String (ascii_of_nat 28) "5") = None.
Proof. reflexivity. Qed.

Example int_no_break_space :
  Py.int ("5" +:+ String (ascii_of_nat 160) EmptyString) = Some 5%Z.
Proof. reflexivity. Qed.

Example slice_last_page : Py.slice [1; 2; 3; 4; 5; 6] 5 10 = [6].
Proof. reflexivity. Qed.

Example slice_page_zero : Py.slice [1; 2; 3; 4; 5; 6] (-5) 0 = [].
Proof. reflexivity. Qed.

Example lower_line : Py.lower "Show PAGE 1" = "show page 1".
Proof. reflexivity. Qed.

Example strptime_iso : Py.strptime_Ymd "1990-05-01" = Some (1990, 5, 1)%Z.
Proof. reflexivity. Qed.

Example strptime_short_fields : Py.strptime_Ymd "1990-5-1" = Some (1990, 5, 1)%Z.
Proof. reflexivity. Qed.

Example strptime_no_leap_day : Py.strptime_Ymd "2023-02-29" = None.
Proof. reflexivity. Qed.

Example strptime_leap_day : Py.strptime_Ymd "2024-02-29" = Some (2024, 2, 29)%Z.
Proof. reflexivity. Qed.

Example strptime_year_zero : Py.strptime_Ymd "0000-01-01" = None.
Proof. reflexivity. Qed.

Example strptime_month_13 : Py.strptime_Ymd "1990-13-01" = None.
Proof. reflexivity. Qed.

Example strptime_trailing : Py.strptime_Ymd "1990-12-31x" = None.
Proof. reflexivity. Qed.

Example strptime_day_32 : Py.strptime_Ymd "1990-1-32" = None.
Proof. reflexivity. Qed.

(** [str.isdigit] counts the superscript digits as digits, so a phone may
    end in U+00B2. *)
Example phone_with_superscript_two :
  is_valid_phone ("123456789" +:+ String (ascii_of_nat 178) EmptyString) = true.
Proof. reflexivity. Qed.

Example phone_too_short : is_valid_phone "123" = false.
Proof. reflexivity. Qed.

Example phone_with_letter : is_valid_phone "12345abcde" = false.
Proof. reflexivity. Qed.

(** *** The scenarios of the specification *)

Example scenario_add :
  fst (parse_command "add john 1234567890 1990-05-01" Assistant_init)
    = Return "Added contact: john, 1234567890, Birthday: 1990-05-01".
Proof. by vm_compute. Qed.

Example scenario_add_bad_phone :
  stdout (after ["add john 123 1990-05-01"])
    = ["Error: Invalid phone number format" +:+ Py.nl].
Proof. by vm_compute. Qed.

Example scenario_phone_unknown :
  stdout (after ["phone unknownperson"])
    = ["Error: Contact 'unknownperson' not found." +:+ Py.nl].
Proof. by vm_compute. Qed.

Example scenario_show_all_six :
  fst (parse_command "show all" six_contacts)
    = Return (Py.join Py.nl
        ["Contact name: ann, phones: 1111111111, Birthday: 1990-01-01";
         "Contact name: bob, phones: 2222222222, Birthday: 1990-01-02";
         "Contact name: cat, phones: 3333333333, Birthday: 1990-01-03";
         "Contact name: dan, phones: 4444444444, Birthday: 1990-01-04";
         "Contact name: eve, phones: 5555555555, Birthday: 1990-01-05"]).
Proof. by vm_compute. Qed.

Example scenario_sixth_is_page_two :
  paginated_contacts 2 5 six_contacts
    = (Return "Contact name: fay, phones: 6666666666, Birthday: 1990-01-06",
       six_contacts).
Proof. by vm_compute. Qed.

(** The two [show page] scenarios do not come out as written. *)
Example scenario_show_page_2 :
  stdout (snd (run_turn "show page 2" six_contacts))
    = (stdout six_contacts
         ++ ["Error: too many values to unpack (expected 2)" +:+ Py.nl])%list.
Proof. by vm_compute. Qed.

Example scenario_show_page_0 :
  stdout (after ["show page 0"])
    = ["Error: too many values to unpack (expected 2)" +:+ Py.nl].
Proof. by vm_compute. Qed.

(** A whole session. *)
Example session_ends_with_exit :
  fst (run session_lines Assistant_init) = Raise SystemExit.
Proof. by vm_compute. Qed.

Example session_output :
  stdout (snd (run session_lines Assistant_init)) =
    ["Bot assistant is running. Type 'exit' to exit." +:+ Py.nl;
     "Enter a command: "; "How can I help you?" +:+ Py.nl;
     "Enter a command: ";
     "Added contact: john, 1234567890, Birthday: 1990-05-01" +:+ Py.nl;
     "Enter a command: "; "Phone number for john: 1234567890" +:+ Py.nl;
     "Enter a command: "; "Updated contact: john, 0987654321" +:+ Py.nl;
     "Enter a command: "; "Phone number for john: 0987654321" +:+ Py.nl;
     "Enter a command: "; "Good bye!" +:+ Py.nl].
Proof. by vm_compute. Qed.
